(** * NEURON visual-fidelity tools: a shallow embedding

    The development follows [tools/image_preprocess.py] and
    [tools/color_transfer.py].  Floating-point values are rationals ([Q]);
    8-bit channels and Python integers are in [Z].  Where an integer result
    is read off a float (the height of the resized image, the crop margin,
    the mean colour of the fallback palette and of the image statistics)
    every float operation is rounded as IEEE 754 rounds it, to 53
    significant bits in Python and to 24 in numpy's [float32] arrays;
    the LAB statistics and the scores, which stay floats, are exact
    rationals.  Functions of the libraries the tools call (OpenCV, numpy's
    standard deviation and square root, scikit-learn, scikit-image) are
    variables of the sections that use them, with the part of their
    contract a proof needs stated as a hypothesis. *)

From Stdlib Require Import ZArith QArith Qround Qabs Qminmax Qpower.
From Stdlib Require Import List String Ascii Bool Lia Lqa.
From Stdlib Require Import Hexadecimal HexadecimalString HexadecimalN.
From Stdlib Require HexadecimalPos HexadecimalFacts.
From Stdlib Require Import NArith.
From Stdlib Require Import Floats Uint63.
From Stdlib Require Import Sorting.Sorted Sorting.Permutation.
Import ListNotations.

Local Open Scope Z_scope.

(** ** Python numerics over the rationals *)

Module PyNum.

(** [int(x)] on a float: truncation toward zero. *)
Definition py_int (x : Q) : Z :=
  if Qle_bool 0 x then Qfloor x else Qceiling x.

(** [round(x)] on a float: nearest integer, ties to the even neighbour. *)
Definition round_half_even (x : Q) : Z :=
  let f := Qfloor x in
  let r := (x - inject_Z f)%Q in
  match (r ?= 1 # 2)%Q with
  | Lt => f
  | Gt => f + 1
  | Eq => if Z.even f then f else f + 1
  end.

(** [round(x, ndigits)]: the value of [x] rounded to [ndigits] decimals. *)
Definition py_round (x : Q) (ndigits : nat) : Q :=
  let s := (10 ^ Z.of_nat ndigits)%Z in
  (inject_Z (round_half_even (x * inject_Z s)) / inject_Z s)%Q.

Definition Qlt_bool (a b : Q) : bool := negb (Qle_bool b a).

(** The binary exponent of a positive value: [floor(log2 q)]. *)
Definition ilog2 (q : Q) : Z :=
  if Qle_bool 1 q then Z.log2 (Qfloor q)
  else - Z.log2_up (Qceiling (/ q)).

(** IEEE 754 rounding of a real value to a float with [prec] significant
    bits: to the nearest multiple of the unit in the last place, a tie to
    the even multiple.  (Values are in the normal range: sizes, pixel sums
    and their quotients neither overflow nor underflow.) *)
Definition fp_round (prec : Z) (q : Q) : Q :=
  if Qeq_bool q 0 then 0%Q
  else
    let ulp := (2 ^ (ilog2 (Qabs q) - prec + 1))%Q in
    (inject_Z (round_half_even (q / ulp)) * ulp)%Q.

(** Python's [float] and numpy's [float32]. *)
Definition binary64 : Q -> Q := fp_round 53.
Definition float32 : Q -> Q := fp_round 24.

(** [max(a, b)] and [min(a, b)]: the first argument unless the second is
    strictly beyond it. *)
Definition py_max (a b : Q) : Q := if Qlt_bool a b then b else a.
Definition py_min (a b : Q) : Q := if Qlt_bool b a then b else a.

(** [f"{v:02x}"]: lower-case hexadecimal, zero-padded to two characters;
    a negative value prints its sign before the digits. *)
Definition hex_digits (n : N) : string :=
  NilZero.string_of_uint (N.to_hex_uint n).

Definition format_02x (v : Z) : string :=
  if v <? 0 then String "-" (hex_digits (Z.to_N (- v)))
  else
    let s := hex_digits (Z.to_N v) in
    if (String.length s <? 2)%nat then String "0" s else s.

End PyNum.
Import PyNum.

(** ** tools/image_preprocess.py *)

Module Preprocess.

(** A PIL image as far as normalization looks at it: its size.  The
    resampled pixel content is Pillow's. *)
Record Image := mkImage { width : Z; height : Z }.

(** [Image.resize((w, h), LANCZOS)]: Pillow rejects an empty target size
    ("height and width must be > 0"). *)
Definition Image_resize (img : Image) (size : Z * Z) : option Image :=
  let '(w, h) := size in
  if (w <? 1) || (h <? 1) then None else Some (mkImage w h).

(** [int(img.height * ratio)] with [ratio = width / img.width]: the
    quotient of the two integers is rounded to a float, the height is
    converted to a float and the product rounded, and [int] truncates. *)
Definition new_height (w h target : Z) : Z :=
  let ratio := binary64 (inject_Z target / inject_Z w) in
  py_int (binary64 (binary64 (inject_Z h) * ratio)).

(** The resize step of [load_and_normalize], on the image that decoding,
    alpha flattening and the optional auto-crop have produced.  The
    division raises on a zero width. *)
Definition resize_to_width (img : Image) (target : Z) : option Image :=
  if negb (width img =? target) then
    if width img =? 0 then None
    else
      Image_resize img (target, new_height (width img) (height img) target)
  else Some img.

Section Normalize.
(** [auto_crop_content]: the crop box comes from OpenCV's edge detection
    and contour search. *)
Variable auto_crop_content : Image -> Image.

Definition load_and_normalize (decoded : Image) (target : Z)
    (auto_crop : bool) : option Image :=
  let img := if auto_crop then auto_crop_content decoded else decoded in
  resize_to_width img target.
End Normalize.

(** [detect_content_bounds] once OpenCV has searched the grey image of
    width [w] and height [h]: [found] is the bounding rectangle of all
    contours, [None] when there is no contour. *)
Definition detect_content_bounds (w h : Z) (found : option (Z * Z * Z * Z))
    (margin : Z) : Z * Z * Z * Z :=
  match found with
  | None => (0, 0, w, h)
  | Some (x, y, bw, bh) =>
      let x := Z.max 0 (x - margin) in
      let y := Z.max 0 (y - margin) in
      let bw := Z.min (w - x) (bw + 2 * margin) in
      let bh := Z.min (h - y) (bh + 2 * margin) in
      let '(x, bw) :=
        if Qlt_bool (inject_Z bw) (inject_Z w * (1 # 2)) then (0, w)
        else (x, bw) in
      let '(y, bh) :=
        if Qlt_bool (inject_Z bh) (inject_Z h * (1 # 2)) then (0, h)
        else (y, bh) in
      (x, y, bw, bh)
  end.

(** [auto_crop_content] with the default [margin_percent = 0.02] (the
    float nearest to 0.02); the crop [img.crop((x, y, x + w, y + h))] has
    size [(w, h)]. *)
Definition crop_margin (img : Image) : Z :=
  py_int (binary64 (binary64 (inject_Z (Z.min (height img) (width img)))
                    * binary64 (2 # 100))).

Definition auto_crop_content (img : Image) (found : option (Z * Z * Z * Z))
    : Image :=
  let '(x, y, w, h) :=
    detect_content_bounds (width img) (height img) found (crop_margin img) in
  mkImage w h.

(** [compute_image_hash] on the grey values [list(gray.getdata())] of the
    8 x 8 thumbnail, in raster order.  One bit per pixel, set when the pixel
    is above the mean; the bits read as a binary number, printed in
    hexadecimal without the [0x] and zero-filled to 16 characters. *)
Definition hash_bits (pixels : list Z) : list bool :=
  let avg := (inject_Z (fold_right Z.add 0%Z pixels)
              / inject_Z (Z.of_nat (List.length pixels)))%Q in
  map (fun p => Qlt_bool avg (inject_Z p)) pixels.

(** [int(bits, 2)]. *)
Definition int_of_bits (bits : list bool) : N :=
  fold_left (fun acc (b : bool) => (2 * acc + (if b then 1 else 0))%N)
    bits 0%N.

(** [s.zfill(width)] on a string without sign. *)
Definition zfill (width : nat) (s : string) : string :=
  string_of_list_ascii (repeat "0"%char (width - String.length s)) ++ s.

Definition compute_image_hash (pixels : list Z) : option string :=
  match pixels with
  | [] => None
  | _ => Some (zfill 16 (hex_digits (int_of_bits (hash_bits pixels))))
  end.

(** The same height on the machine's binary64 floats, for image sizes
    (non-negative and below [2^53]); [int] of an infinity or a [nan]
    raises. *)
Definition float_of_size (z : Z) : float :=
  PrimFloat.of_uint63 (Uint63.of_Z z).

Definition float_int (f : float) : option Z :=
  match Prim2SF f with
  | S754_zero _ => Some 0
  | S754_finite s m e =>
      let v := if 0 <=? e then Zpos m * 2 ^ e
               else Z.quot (Zpos m) (2 ^ (- e)) in
      Some (if s then - v else v)
  | _ => None
  end.

Definition new_height_binary64 (w h target : Z) : option Z :=
  let ratio := PrimFloat.div (float_of_size target) (float_of_size w) in
  float_int (PrimFloat.mul (float_of_size h) ratio).

(** The height the specification asks for: [round(h * W / w)]. *)
Definition spec_height (w h target : Z) : Z :=
  round_half_even (inject_Z h * inject_Z target / inject_Z w).

End Preprocess.

(** ** tools/color_transfer.py *)

Module ColorTransfer.

Definition triple (A : Type) : Type := (A * A * A)%type.

Definition chan {A} (i : nat) (p : triple A) : A :=
  let '(x, y, z) := p in
  match i with O => x | S O => y | _ => z end.

Definition set_chan {A} (i : nat) (v : A) (p : triple A) : triple A :=
  let '(x, y, z) := p in
  match i with O => (v, y, z) | S O => (x, v, z) | _ => (x, y, v) end.

Definition map3 {A B} (f : A -> B) (p : triple A) : triple B :=
  let '(x, y, z) := p in (f x, f y, f z).

(** A numpy float that may be [nan] (the mean of an empty slice). *)
Inductive npfloat := nan | fin (q : Q).

Definition Qsum (l : list Q) : Q := fold_right Qplus 0%Q l.

(** [np.mean] over one channel of a non-empty array of LAB values, as
    an exact rational. *)
Definition Qmean (l : list Q) : Q :=
  (Qsum l / inject_Z (Z.of_nat (List.length l)))%Q.

(** The sum of one column of a [float32] array with rows in memory order:
    numpy adds the rows one after another into a [float32]. *)
Definition np_sum32 (l : list Q) : Q :=
  fold_left (fun acc v => float32 (acc + v)) l 0%Q.

(** Its mean: the sum divided by the number of rows, in [float32]. *)
Definition np_mean32 (l : list Q) : Q :=
  float32 (np_sum32 l / inject_Z (Z.of_nat (List.length l))).

(** [pixels.mean(axis=0)] on an [(n, 3)] [float32] array; [nan] when
    [n = 0]. *)
Definition mean_axis0 (pixels : list (triple Q)) : triple npfloat :=
  match pixels with
  | [] => (nan, nan, nan)
  | _ => (fin (np_mean32 (map (chan 0) pixels)),
          fin (np_mean32 (map (chan 1) pixels)),
          fin (np_mean32 (map (chan 2) pixels)))
  end.

(** A palette entry of ["palette_details"] and the dictionary
    [extract_palette] returns (["success"] is [True] on both paths). *)
Record PaletteEntry := mkEntry {
  hex : string;
  rgb : triple Z;
  frequency : Q
}.

Record Palette := mkPalette {
  colors : list string;
  palette_details : option (list PaletteEntry);
  primary_background : string;
  accent : option string
}.

(** Non-increasing frequency, the order of a palette. *)
Definition freq_ge (a b : PaletteEntry) : Prop :=
  (frequency b <= frequency a)%Q.

Definition hex_color (c : triple Z) : string :=
  let '(r, g, b) := c in
  String "#" (format_02x r ++ format_02x g ++ format_02x b).

(** [Counter(labels)]: keys in order of first occurrence. *)
Fixpoint counter_incr (x : nat) (c : list (nat * nat)) : list (nat * nat) :=
  match c with
  | [] => [(x, 1%nat)]
  | (y, n) :: c' =>
      if Nat.eqb x y then (y, S n) :: c' else (y, n) :: counter_incr x c'
  end.

Definition Counter (labels : list nat) : list (nat * nat) :=
  fold_left (fun c x => counter_incr x c) labels [].

Fixpoint count_of (c : list (nat * nat)) (x : nat) : nat :=
  match c with
  | [] => O
  | (y, n) :: c' => if Nat.eqb x y then n else count_of c' x
  end.

(** [sorted(xs, key=key, reverse=True)]: descending and stable. *)
Fixpoint insert_desc {A} (key : A -> nat) (x : A) (l : list A) : list A :=
  match l with
  | [] => [x]
  | y :: l' =>
      if (key x <? key y)%nat then y :: insert_desc key x l' else x :: l
  end.

(** The order [sorted_desc] establishes. *)
Definition key_ge {A} (key : A -> nat) (a b : A) : Prop :=
  (key b <= key a)%nat.

Definition sorted_desc {A} (key : A -> nat) (l : list A) : list A :=
  fold_right (insert_desc key) [] l.

(** The loop that builds [colors]; [centers[idx]] raises out of range. *)
Fixpoint build_colors (centers : list (triple Z)) (counts : list (nat * nat))
    (total : nat) (indices : list nat) : option (list PaletteEntry) :=
  match indices with
  | [] => Some []
  | idx :: rest =>
      match nth_error centers idx with
      | None => None
      | Some c =>
          match build_colors centers counts total rest with
          | None => None
          | Some es =>
              Some (mkEntry (hex_color c) c
                      (inject_Z (Z.of_nat (count_of counts idx))
                       / inject_Z (Z.of_nat total))%Q :: es)
          end
      end
  end.

Definition saturation (c : triple Z) : Z :=
  let '(r, g, b) := c in Z.max (Z.max r g) b - Z.min (Z.min r g) b.

(** One turn of the accent loop over [colors[1:]]. *)
Definition accent_step (st : option string * Z) (c : PaletteEntry)
    : option string * Z :=
  let '(acc, max_saturation) := st in
  if max_saturation <? saturation (rgb c)
  then (Some (hex c), saturation (rgb c)) else st.

Definition accent_loop (cs : list PaletteEntry) : option string * Z :=
  fold_left accent_step (tl cs) (None, 0).

(** [a or b] for an optional string [a]. *)
Definition py_or (a : option string) (b : string) : string :=
  match a with
  | Some s => if String.eqb s EmptyString then b else s
  | None => b
  end.

Section ExtractPalette.
(** [KMeans(n_clusters=k, random_state=42, n_init=10).fit(pixels)]: the
    cluster centres and the label of every pixel; [None] when
    scikit-learn raises. *)
Variable kmeans :
  list (triple Q) -> Z -> option (list (triple Q) * list nat).
(** What [.astype(int)] makes of [nan]; numpy leaves it to the platform. *)
Variable nan_as_int : Z.

Definition astype_int (x : npfloat) : Z :=
  match x with nan => nan_as_int | fin q => py_int q end.

Definition all_below (c : Q) (p : triple Q) : bool :=
  let '(r, g, b) := p in Qlt_bool r c && Qlt_bool g c && Qlt_bool b c.

Definition all_above (c : Q) (p : triple Q) : bool :=
  let '(r, g, b) := p in Qlt_bool c r && Qlt_bool c g && Qlt_bool c b.

Definition filter_pixels (exclude_near_white exclude_near_black : bool)
    (pixels : list (triple Q)) : list (triple Q) :=
  let pixels :=
    if exclude_near_white then filter (all_below 250) pixels else pixels in
  if exclude_near_black then filter (all_above 5) pixels else pixels.

Definition fallback_palette (pixels : list (triple Q)) : Palette :=
  let avg := map3 astype_int (mean_axis0 pixels) in
  mkPalette [hex_color avg] None (hex_color avg) None.

Definition kmeans_palette (pixels : list (triple Q)) (k : Z)
    : option Palette :=
  match kmeans pixels k with
  | None => None
  | Some (cluster_centers, labels) =>
      let centers := map (map3 py_int) cluster_centers in
      let counts := Counter labels in
      let sorted_indices := sorted_desc (count_of counts) (map fst counts) in
      match build_colors centers counts (List.length labels) sorted_indices with
      | None => None
      | Some cs =>
          match cs with
          | [] => None
          | bg :: _ =>
              let primary_bg := hex bg in
              let acc := fst (accent_loop cs) in
              let reported :=
                if (1 <? List.length cs)%nat then
                  match nth_error cs 1 with
                  | Some c1 => py_or acc (hex c1)
                  | None => primary_bg
                  end
                else primary_bg in
              Some (mkPalette (map hex cs) (Some cs) primary_bg
                      (Some reported))
          end
      end
  end.

(** What the tool relies on from scikit-learn: [k] centres, one label
    per pixel, every label below [k]. *)
Definition kmeans_contract : Prop :=
  forall pixels k centers labels,
    kmeans pixels k = Some (centers, labels) ->
    List.length centers = Z.to_nat k /\
    List.length labels = List.length pixels /\
    Forall (fun l => (l < Z.to_nat k)%nat) labels.

(** [extract_palette] on the decoded RGB pixels of the image. *)
Definition extract_palette (img : list (triple Z)) (k : Z)
    (exclude_near_white exclude_near_black : bool) : option Palette :=
  let pixels := map (map3 inject_Z) img in
  let pixels := filter_pixels exclude_near_white exclude_near_black pixels in
  if Z.of_nat (List.length pixels) <? k
  then Some (fallback_palette pixels)
  else kmeans_palette pixels k.
End ExtractPalette.

(** *** Colour space *)

(** A decoded array: three channels, or four when alpha is present. *)
Inductive ndimage :=
| Img3 (px : list (triple Z))
| Img4 (px : list (triple Z * Z)).

Definition swap_rb {A} (p : triple A) : triple A :=
  let '(x, y, z) := p in (z, y, x).

(** [np.clip(v, 0, 255).astype(np.uint8)] on a float. *)
Definition clip_uint8 (v : Q) : Z :=
  py_int (if Qlt_bool v 0 then 0 else if Qlt_bool 255 v then 255 else v)%Q.

Section ColorSpace.
(** OpenCV's 8-bit conversions [COLOR_BGR2LAB] and [COLOR_LAB2BGR], one
    pixel at a time; [COLOR_RGB2BGR] and [COLOR_BGR2RGB] exchange the
    outer channels. *)
Variable cv_BGR2LAB : triple Z -> triple Z.
Variable cv_LAB2BGR : triple Z -> triple Z.

Definition rgb_to_lab (img : ndimage) : list (triple Q) :=
  let img := match img with Img3 px => px | Img4 px => map fst px end in
  let bgr := map swap_rb img in
  map (fun p => map3 inject_Z (cv_BGR2LAB p)) bgr.

Definition lab_to_rgb (lab : list (triple Q)) : list (triple Z) :=
  let lab_uint8 := map (map3 clip_uint8) lab in
  let bgr := map cv_LAB2BGR lab_uint8 in
  map swap_rb bgr.
End ColorSpace.

(** *** Reinhard transfer *)

Definition channel (i : nat) (img : list (triple Q)) : list Q :=
  map (chan i) img.

(** [arr[:, :, i] = values]. *)
Definition assign_channel (i : nat) (values : list Q)
    (arr : list (triple Q)) : list (triple Q) :=
  map (fun vp => set_chan i (fst vp) (snd vp)) (combine values arr).

(** [np.where(source_std < 1e-6, 1.0, source_std)]. *)
Definition guard_std (s : Q) : Q :=
  if Qlt_bool s (1 # 1000000) then 1%Q else s.

Record ColorShift := mkShift {
  L_shift : Q;
  a_shift : Q;
  b_shift : Q;
  brightness_change : string;
  warmth_change : string
}.

Record TransferResult := mkTransfer {
  result_rgb : list (triple Z);
  source_mean_lab : triple Q;
  target_mean_lab : triple Q;
  color_shift : ColorShift
}.

Section Reinhard.
Variable cv_BGR2LAB : triple Z -> triple Z.
Variable cv_LAB2BGR : triple Z -> triple Z.
(** [np.std] over one channel (a square root: numpy's). *)
Variable np_std : list Q -> Q.

Definition stat3 (f : list Q -> Q) (lab : list (triple Q)) : triple Q :=
  (f (channel 0 lab), f (channel 1 lab), f (channel 2 lab)).

Definition transfer_value (i : nat)
    (source_mean source_std target_mean target_std : triple Q) (v : Q) : Q :=
  ((v - chan i source_mean) * (chan i target_std / chan i source_std)
   + chan i target_mean)%Q.

(** The statistics and the channel loop, up to [result_lab]. *)
Definition reinhard_lab (source_lab target_lab : list (triple Q))
    (preserve_luminance : bool) : list (triple Q) :=
  let source_mean := stat3 Qmean source_lab in
  let source_std := stat3 np_std source_lab in
  let target_mean := stat3 Qmean target_lab in
  let target_std := stat3 np_std target_lab in
  let source_std := map3 guard_std source_std in
  fold_left
    (fun result_lab i =>
       assign_channel i
         (map (transfer_value i source_mean source_std target_mean target_std)
              (channel i source_lab))
         result_lab)
    (if preserve_luminance then [1; 2] else [0; 1; 2])%nat
    source_lab.

Definition reinhard_color_transfer (source_img target_img : list (triple Z))
    (preserve_luminance : bool) : TransferResult :=
  let source_lab := rgb_to_lab cv_BGR2LAB (Img3 source_img) in
  let target_lab := rgb_to_lab cv_BGR2LAB (Img3 target_img) in
  let result_lab := reinhard_lab source_lab target_lab preserve_luminance in
  let source_mean := stat3 Qmean source_lab in
  let target_mean := stat3 Qmean target_lab in
  mkTransfer (lab_to_rgb cv_LAB2BGR result_lab) source_mean target_mean
    (mkShift
       (chan 0 target_mean - chan 0 source_mean)
       (chan 1 target_mean - chan 1 source_mean)
       (chan 2 target_mean - chan 2 source_mean)
       (if Qlt_bool (chan 0 target_mean) (chan 0 source_mean)
        then "darker" else "lighter")
       (if Qlt_bool (chan 2 source_mean) (chan 2 target_mean)
        then "warmer" else "cooler")).
End Reinhard.

(** *** Adjustment suggestions *)

Record Filters := mkFilters {
  brightness : Q;
  contrast : Q;
  saturate : Q
}.

Inductive Suggestion :=
| NoData (error : string)
| Suggested (suggested_filters : Filters) (css_filter : string)
    (tone_suggestion : string).

(** [np.array([[c]], dtype=np.uint8)] accepts channel values 0..255. *)
Definition as_uint8 (c : triple Z) : option (triple Z) :=
  let ok v := (0 <=? v) && (v <=? 255) in
  let '(r, g, b) := c in
  if ok r && ok g && ok b then Some c else None.

Definition flat_rgb (cs : list PaletteEntry) : list Q :=
  flat_map (fun c => let '(r, g, b) := rgb c in
                     [inject_Z r; inject_Z g; inject_Z b]) cs.

Definition brightness_of (l_diff : Q) : Q :=
  if Qlt_bool 10 (Qabs l_diff)
  then py_max (1 # 2) (py_min (3 # 2) (py_round (1 + l_diff / 100) 2))
  else 1%Q.

Definition saturate_of (ref_saturation gen_saturation : Q) : Q :=
  if Qlt_bool 0 gen_saturation
  then py_max (1 # 2) (py_min (3 # 2)
         (py_round (ref_saturation / gen_saturation) 2))
  else 1%Q.

Definition tone_of (l_diff : Q) : string :=
  if Qlt_bool l_diff (-10) then "darker"
  else if Qlt_bool 10 l_diff then "lighter" else "neutral".

(** [palette.get("palette_details", [])]. *)
Definition get_palette_details (p : Palette) : list PaletteEntry :=
  match palette_details p with Some d => d | None => [] end.

Definition valid_rgb (c : triple Z) : Prop :=
  let '(r, g, b) := c in
  (0 <= r <= 255) /\ (0 <= g <= 255) /\ (0 <= b <= 255).

(** [x] clamped to the interval from [lo] to [hi]. *)
Definition clamped (lo hi x : Q) : Q :=
  if Qlt_bool x lo then lo else if Qlt_bool hi x then hi else x.

Section Suggest.
Variable cv_BGR2LAB : triple Z -> triple Z.
(** [np.std] over all channel values of a palette. *)
Variable np_std : list Q -> Q.
(** How an f-string prints a float. *)
Variable str_float : Q -> string.

(** [rgb_to_lab(np.array([[c]], dtype=np.uint8))[0, 0]]. *)
Definition lab_of_rgb (c : triple Z) : option (triple Q) :=
  match as_uint8 c with
  | None => None
  | Some c8 => nth_error (rgb_to_lab cv_BGR2LAB (Img3 [c8])) 0
  end.

(** The lightness difference of two background colours on OpenCV's
    8-bit scale. *)
Definition delta_L (ref_bg gen_bg : triple Z) : Z :=
  chan 0 (cv_BGR2LAB (swap_rb ref_bg))
  - chan 0 (cv_BGR2LAB (swap_rb gen_bg)).

Definition suggest_color_adjustments (ref_palette gen_palette : Palette)
    : option Suggestion :=
  let ref_colors := get_palette_details ref_palette in
  let gen_colors := get_palette_details gen_palette in
  match ref_colors, gen_colors with
  | [], _ | _, [] => Some (NoData "No palette data available")
  | ref0 :: _, gen0 :: _ =>
      match lab_of_rgb (rgb ref0) with
      | None => None
      | Some ref_lab =>
          match lab_of_rgb (rgb gen0) with
          | None => None
          | Some gen_lab =>
              let l_diff := (chan 0 ref_lab - chan 0 gen_lab)%Q in
              let brightness := brightness_of l_diff in
              let ref_saturation := np_std (flat_rgb ref_colors) in
              let gen_saturation := np_std (flat_rgb gen_colors) in
              let saturate := saturate_of ref_saturation gen_saturation in
              let contrast := 1%Q in
              Some (Suggested (mkFilters brightness contrast saturate)
                      ("filter: brightness(" ++ str_float brightness
                       ++ ") contrast(" ++ str_float contrast
                       ++ ") saturate(" ++ str_float saturate ++ ");")
                      (tone_of l_diff))
          end
      end
  end.
End Suggest.

(** *** Structural similarity *)

Definition image (A : Type) : Type := list (list A).

Definition shape {A} (img : image A) : nat * nat :=
  (List.length img, List.length (hd [] img)).

Definition map_image {A B} (f : A -> B) (img : image A) : image B :=
  map (map f) img.

Record BBox := mkBBox { x : Z; y : Z; w : Z; h : Z }.

Record DiffRegion := mkRegion { bbox : BBox; area : Z }.

Record SsimReport := mkReport {
  ssim : Q;
  passed : bool;
  difference_regions : list DiffRegion;
  analysis : string
}.

Inductive SsimResult :=
| SsimError (error : string)
| SsimOk (report : SsimReport).

(** [(diff_map * 255).astype(np.uint8)] on one value. *)
Definition astype_uint8 (v : Q) : Z := py_int v mod 256.

(** [cv2.threshold(src, 200, 255, cv2.THRESH_BINARY_INV)] on one value. *)
Definition threshold_binary_inv (thresh maxval v : Z) : Z :=
  if thresh <? v then 0 else maxval.

Definition analysis_of (score : Q) : string :=
  if Qle_bool (95 # 100) score then "excellent"
  else if Qle_bool (90 # 100) score then "good"
  else if Qle_bool (80 # 100) score then "fair"
  else "poor".

(** The dictionary built from the score and the regions found. *)
Definition ssim_report (score : Q) (diff_regions : list DiffRegion)
    : SsimReport :=
  mkReport (py_round score 4) (Qle_bool (94 # 100) score) diff_regions
    (analysis_of score).

(** The default window of [skimage.metrics.structural_similarity]. *)
Definition win_size : nat := 7.

(** What the tool relies on from the libraries when an image is compared
    with itself: the similarity is 1 in every window, and a mask without a
    lit pixel has no contour. *)
Definition perfect_on_identical
    (ssim_windows : image Z -> image Z -> Q * image Q) : Prop :=
  forall g, ssim_windows g g = (1%Q, map_image (fun _ => 1%Q) g).

Definition no_contour_in_empty_mask {contour : Type}
    (findContours : image Z -> list contour) : Prop :=
  forall mask, Forall (Forall (fun v => v = 0)) mask -> findContours mask = [].

Section Ssim.
Variable HAS_SKIMAGE : bool.
Variable cv_resize : image (triple Z) -> nat * nat -> image (triple Z).
Variable cv_RGB2GRAY : triple Z -> Z.
(** The windowed statistic of scikit-image: the mean score and the full
    similarity map. *)
Variable ssim_windows : image Z -> image Z -> Q * image Q.
Variable contour : Type.
Variable findContours : image Z -> list contour.
Variable boundingRect : contour -> Z * Z * Z * Z.
Variable contourArea : contour -> Q.

(** [ssim(gray1, gray2, full=True)]: scikit-image raises when the window
    exceeds a side of the image. *)
Definition structural_similarity (im1 im2 : image Z)
    : option (Q * image Q) :=
  let '(rows, cols) := shape im1 in
  if (rows <? win_size)%nat || (cols <? win_size)%nat then None
  else Some (ssim_windows im1 im2).

Definition region_of (cnt : contour) : list DiffRegion :=
  let '(x, y, w, h) := boundingRect cnt in
  let area := contourArea cnt in
  if Qlt_bool 100 area then [mkRegion (mkBBox x y w h) (py_int area)]
  else [].

(** The two images brought to the smaller common size when their
    shapes differ. *)
Definition same_shape (img1 img2 : image (triple Z))
    : image (triple Z) * image (triple Z) :=
  if negb ((fst (shape img1) =? fst (shape img2))%nat
           && (snd (shape img1) =? snd (shape img2))%nat)
  then
    let h := Nat.min (fst (shape img1)) (fst (shape img2)) in
    let w := Nat.min (snd (shape img1)) (snd (shape img2)) in
    (cv_resize img1 (w, h), cv_resize img2 (w, h))
  else (img1, img2).

Definition compute_ssim (img1 img2 : image (triple Z))
    : option SsimResult :=
  if negb HAS_SKIMAGE then
    Some (SsimError
            "scikit-image not installed. Run: pip install scikit-image")
  else
    let '(img1, img2) := same_shape img1 img2 in
    let gray1 := map_image cv_RGB2GRAY img1 in
    let gray2 := map_image cv_RGB2GRAY img2 in
    match structural_similarity gray1 gray2 with
    | None => None
    | Some (score, diff_map) =>
        let diff_map_uint8 :=
          map_image (fun v => astype_uint8 (v * 255)) diff_map in
        let thresh :=
          map_image (threshold_binary_inv 200 255) diff_map_uint8 in
        let contours := findContours thresh in
        let diff_regions := flat_map region_of (firstn 5 contours) in
        Some (SsimOk (ssim_report score diff_regions))
    end.
End Ssim.

(** *** Colour distance *)

(** [int(s, 16)] on an ASCII string, as CPython reads it: blanks around
    the number, an optional sign, an optional [0x] prefix, and single
    underscores between digits; [None] is [ValueError]. *)
Definition is_space (c : ascii) : bool :=
  let n := nat_of_ascii c in
  (n =? 32)%nat || ((9 <=? n)%nat && (n <=? 13)%nat).

Definition hex_digit_value (c : ascii) : option Z :=
  let n := Z.of_nat (nat_of_ascii c) in
  if (48 <=? n) && (n <=? 57) then Some (n - 48)
  else if (97 <=? n) && (n <=? 102) then Some (n - 87)
  else if (65 <=? n) && (n <=? 70) then Some (n - 55)
  else None.

Fixpoint drop_while {A} (f : A -> bool) (l : list A) : list A :=
  match l with
  | [] => []
  | a :: l' => if f a then drop_while f l' else l
  end.

Fixpoint hex_digits_value (acc : Z) (after_digit : bool) (l : list ascii)
    : option Z :=
  match l with
  | [] => if after_digit then Some acc else None
  | c :: l' =>
      if Ascii.eqb c "_" then
        if after_digit then hex_digits_value acc false l' else None
      else
        match hex_digit_value c with
        | Some d => hex_digits_value (16 * acc + d) true l'
        | None => None
        end
  end.

Definition py_int16 (s : string) : option Z :=
  let l := drop_while is_space (list_ascii_of_string s) in
  let l := List.rev (drop_while is_space (List.rev l)) in
  let '(negative, l) :=
    match l with
    | c :: l' =>
        if Ascii.eqb c "-" then (true, l')
        else if Ascii.eqb c "+" then (false, l') else (false, l)
    | [] => (false, l)
    end in
  let l :=
    match l with
    | c0 :: cx :: l' =>
        if Ascii.eqb c0 "0" && (Ascii.eqb cx "x" || Ascii.eqb cx "X") then
          match l' with
          | u :: l'' => if Ascii.eqb u "_" then l'' else l'
          | [] => l'
          end
        else l
    | _ => l
    end in
  match hex_digits_value 0 false l with
  | Some v => Some (if negative then - v else v)
  | None => None
  end.

(** [h.lstrip('#')]. *)
Fixpoint lstrip_hash (h : string) : string :=
  match h with
  | String c h' => if Ascii.eqb c "#" then lstrip_hash h' else h
  | EmptyString => h
  end.

(** [hex_to_rgb], the helper of [compute_color_distance]. *)
Definition hex_to_rgb (h : string) : option (triple Z) :=
  let h := lstrip_hash h in
  match py_int16 (substring 0 2 h) with
  | None => None
  | Some r =>
      match py_int16 (substring 2 2 h) with
      | None => None
      | Some g =>
          match py_int16 (substring 4 2 h) with
          | None => None
          | Some b => Some (r, g, b)
          end
      end
  end.

(** Two hexadecimal digits that read back as the value they print. *)
Definition reads_back (v : Z) : bool :=
  match format_02x v with
  | String c1 (String c2 EmptyString) =>
      negb (Ascii.eqb c1 "#") &&
      match py_int16 (String c1 (String c2 EmptyString)) with
      | Some u => u =? v
      | None => false
      end
  | _ => false
  end.

Section Distance.
Variable cv_BGR2LAB : triple Z -> triple Z.
(** [np.sqrt]. *)
Variable np_sqrt : Q -> Q.

(** [rgb_to_lab(np.array(c).reshape(1, 1, 3).astype(np.uint8))[0, 0]]:
    the cast to [uint8] wraps. *)
Definition lab_of_hex (c : triple Z) : option (triple Q) :=
  nth_error
    (rgb_to_lab cv_BGR2LAB (Img3 [map3 (fun v => v mod 256) c])) 0.

Definition compute_color_distance (color1 color2 : string) : option Q :=
  match hex_to_rgb color1 with
  | None => None
  | Some c1 =>
      match hex_to_rgb color2 with
      | None => None
      | Some c2 =>
          match lab_of_hex c1, lab_of_hex c2 with
          | Some lab1, Some lab2 =>
              let sq i := ((chan i lab1 - chan i lab2)
                           * (chan i lab1 - chan i lab2))%Q in
              Some (np_sqrt (sq 0%nat + sq 1%nat + sq 2%nat))
          | _, _ => None
          end
      end
  end.
End Distance.

(** *** The command line *)

(** What the two filters keep, read on the 8-bit channel values. *)
Definition kept (exclude_near_white exclude_near_black : bool)
    (p : triple Z) : bool :=
  let '(r, g, b) := p in
  (negb exclude_near_white || ((r <? 250) && (g <? 250) && (b <? 250))) &&
  (negb exclude_near_black || ((5 <? r) && (5 <? g) && (5 <? b))).

Section Cli.
Variable kmeans :
  list (triple Q) -> Z -> option (list (triple Q) * list nat).
Variable nan_as_int : Z.
Variable cv_BGR2LAB : triple Z -> triple Z.
Variable np_std : list Q -> Q.
Variable str_float : Q -> string.

(** The [suggest] command of [main]: both palettes are extracted with the
    defaults ([k = 6], both filters on) and compared; [None] is an
    exception, which [main] reports as a failure and exits on. *)
Definition suggest_command (ref_img gen_img : list (triple Z))
    : option Suggestion :=
  match extract_palette kmeans nan_as_int ref_img 6 true true with
  | None => None
  | Some ref_palette =>
      match extract_palette kmeans nan_as_int gen_img 6 true true with
      | None => None
      | Some gen_palette =>
          suggest_color_adjustments cv_BGR2LAB np_std str_float
            ref_palette gen_palette
      end
  end.
End Cli.

End ColorTransfer.

(** ** tools/image_preprocess.py: image statistics *)

Module Stats.
Import ColorTransfer.

Record ImageStats := mkStats {
  width : Z;
  height : Z;
  aspect_ratio : Q;
  mean_rgb : list Z;
  std_rgb : list Q;
  dominant_color : string
}.

(** The mean of one channel of a [uint8] array: numpy adds the values in
    [float64] (whole numbers, exact in any order while the sum is below
    [2^53], that is for fewer than [2^45] values) and divides the sum by
    the count in [float64]. *)
Definition np_mean_uint8 (l : list Z) : Q :=
  binary64 (inject_Z (fold_right Z.add 0 l)
            / inject_Z (Z.of_nat (List.length l))).

Section GetImageStats.
(** [arr[:, :, i].std()]. *)
Variable np_std : list Q -> Q.

(** [get_image_stats] on an RGB image of the given size and pixels.
    [None] is an exception: the division by a zero height, or [int] of the
    [nan] that the mean of no pixel is. *)
Definition get_image_stats (w h : Z) (pixels : list (triple Z))
    : option ImageStats :=
  if h =? 0 then None
  else
    match pixels with
    | [] => None
    | _ =>
        let arr := map (map3 inject_Z) pixels in
        let mean i := np_mean_uint8 (map (chan i) pixels) in
        Some (mkStats w h
                (py_round (inject_Z w / inject_Z h) 3)
                (map (fun i => py_int (mean i)) [0; 1; 2]%nat)
                (map (fun i => py_round (np_std (channel i arr)) 2)
                     [0; 1; 2]%nat)
                (hex_color (py_int (mean 0%nat), py_int (mean 1%nat),
                            py_int (mean 2%nat))))
    end.
End GetImageStats.

End Stats.

(** ** Stand-ins for the libraries

    Simple executable functions with the interfaces of the library calls,
    used to run the model on concrete inputs. *)

Module Sample.
Import ColorTransfer.

(** Clusters by position: pixel [i] gets label [i mod k], the centres are
    the first [k] pixels. *)
Definition kmeans (pixels : list (triple Q)) (k : Z)
    : option (list (triple Q) * list nat) :=
  if (k <? 1) || (Z.of_nat (List.length pixels) <? k) then None
  else Some (firstn (Z.to_nat k) pixels,
             map (fun i => Nat.modulo i (Z.to_nat k))
                 (seq 0 (List.length pixels))).

(** A grey-level lightness with neutral chroma. *)
Definition bgr2lab (p : triple Z) : triple Z :=
  let '(b, g, r) := p in ((r + g + b) / 3, 128, 128).

Definition lab2bgr (p : triple Z) : triple Z :=
  let '(l, _, _) := p in (l, l, l).

(** A lightness that weighs the channels differently, so that the channel
    order matters. *)
Definition luma_lab (p : triple Z) : triple Z :=
  let '(b, g, r) := p in ((2 * r + 5 * g + b) / 8, 128, 128).

(** Half the spread of the values, in place of the standard deviation. *)
Definition spread (l : list Q) : Q :=
  match l with
  | [] => 0%Q
  | v :: l' => ((fold_right Qmax v l' - fold_right Qmin v l') / 2)%Q
  end.

Definition str_float (q : Q) : string := "1.0".

Definition rgb2gray (p : triple Z) : Z :=
  let '(r, g, b) := p in (r + g + b) / 3.

(** Perfect similarity exactly on equal images. *)
Definition ssim_windows (im1 im2 : image Z) : Q * image Q :=
  if list_eq_dec (list_eq_dec Z.eq_dec) im1 im2
  then (1%Q, map_image (fun _ => 1%Q) im1)
  else (0%Q, map_image (fun _ => 0%Q) im1).

(** A statistic that scores every pair 0.93999. *)
Definition ssim_near_threshold (im1 im2 : image Z) : Q * image Q :=
  (93999 # 100000, map_image (fun _ => 93999 # 100000) im1).

(** A uniformly grey image of the given size. *)
Definition grey_image (rows cols : nat) (v : Z) : image (triple Z) :=
  repeat (repeat (v, v, v) cols) rows.

Definition cv_resize (img : image (triple Z)) (size : nat * nat)
    : image (triple Z) :=
  map (firstn (fst size)) (firstn (snd size) img).

(** One contour of a single point per lit pixel row. *)
Definition findContours (mask : image Z) : list (list (Z * Z)) :=
  flat_map (fun row => if existsb (fun v => negb (v =? 0)) row
                       then [[(0, 0)]] else []) mask.

Definition boundingRect (c : list (Z * Z)) : Z * Z * Z * Z := (0, 0, 1, 1).

(** Seven contours, the [i]-th of area [100 i + 0.5]. *)
Definition seven_contours (mask : image Z) : list (list (Z * Z)) :=
  map (fun i => [(i, i)]) [1; 2; 3; 4; 5; 6; 7].

Definition area_by_corner (c : list (Z * Z)) : Q :=
  match c with
  | (i, _) :: _ => (inject_Z (100 * i) + (1 # 2))%Q
  | [] => 0%Q
  end.

Definition contourArea (c : list (Z * Z)) : Q := 0%Q.

End Sample.

(** * Properties *)

(** ** Numerics *)

Section NumFacts.
Local Open Scope Q_scope.

Lemma Qlt_bool_iff (a b : Q) : Qlt_bool a b = true <-> a < b.
Proof.
  unfold Qlt_bool. rewrite negb_true_iff.
  split; intro H.
  - apply Qnot_le_lt. intro Hle. apply Qle_bool_iff in Hle. congruence.
  - destruct (Qle_bool b a) eqn:E; [|reflexivity].
    apply Qle_bool_iff in E. exfalso. exact (Qlt_not_le _ _ H E).
Qed.

Lemma Qlt_bool_false_iff (a b : Q) : Qlt_bool a b = false <-> b <= a.
Proof.
  unfold Qlt_bool. rewrite negb_false_iff. apply Qle_bool_iff.
Qed.

Lemma py_int_nonneg (q : Q) : 0 <= q -> py_int q = Qfloor q.
Proof.
  intro H. unfold py_int. apply Qle_bool_iff in H. now rewrite H.
Qed.

Lemma py_int_inject_Z (z : Z) : py_int (inject_Z z) = z.
Proof.
  unfold py_int. destruct (Qle_bool 0 (inject_Z z)).
  - apply Qfloor_Z.
  - apply Qceiling_Z.
Qed.

Lemma round_half_even_comp (x y : Q) :
  x == y -> round_half_even x = round_half_even y.
Proof.
  intro E. unfold round_half_even.
  rewrite (Qfloor_comp _ _ E).
  assert (C : (x - inject_Z (Qfloor y) ?= 1 # 2)
              = (y - inject_Z (Qfloor y) ?= 1 # 2)).
  { apply Qcompare_comp; [now rewrite E | reflexivity]. }
  now rewrite C.
Qed.

Lemma py_int_comp (x y : Q) : x == y -> py_int x = py_int y.
Proof.
  intro E. unfold py_int.
  assert (Hb : Qle_bool 0 x = Qle_bool 0 y).
  { destruct (Qle_bool 0 y) eqn:Ey.
    - apply Qle_bool_iff. apply Qle_bool_iff in Ey. now rewrite E.
    - destruct (Qle_bool 0 x) eqn:Ex; [|reflexivity].
      apply Qle_bool_iff in Ex. rewrite E in Ex.
      apply Qle_bool_iff in Ex. congruence. }
  now rewrite Hb, (Qfloor_comp _ _ E), (Qceiling_comp _ _ E).
Qed.

Lemma round_half_even_Z (z : Z) : round_half_even (inject_Z z) = z.
Proof.
  unfold round_half_even. rewrite Qfloor_Z.
  assert (E : inject_Z z - inject_Z z == 0) by ring.
  assert (C : (inject_Z z - inject_Z z ?= 1 # 2) = Lt).
  { rewrite E. reflexivity. }
  now rewrite C.
Qed.

(** A value with at most [n] decimals is left alone by [round(x, n)]. *)
Lemma py_round_exact (z : Z) (n : nat) :
  py_round (inject_Z z / inject_Z (10 ^ Z.of_nat n)) n
  == inject_Z z / inject_Z (10 ^ Z.of_nat n).
Proof.
  unfold py_round.
  assert (Hp : ~ inject_Z (10 ^ Z.of_nat n) == 0).
  { change 0 with (inject_Z 0). rewrite inject_Z_injective.
    apply Z.pow_nonzero; lia. }
  assert (E : inject_Z z / inject_Z (10 ^ Z.of_nat n)
              * inject_Z (10 ^ Z.of_nat n) == inject_Z z).
  { field. exact Hp. }
  assert (R : round_half_even
                (inject_Z z / inject_Z (10 ^ Z.of_nat n)
                 * inject_Z (10 ^ Z.of_nat n)) = z).
  { rewrite <- (round_half_even_Z z) at 2.
    unfold round_half_even.
    rewrite (Qfloor_comp _ _ E).
    assert (C : forall f, (inject_Z z / inject_Z (10 ^ Z.of_nat n)
                 * inject_Z (10 ^ Z.of_nat n) - f ?= 1 # 2)
               = (inject_Z z - f ?= 1 # 2)).
    { intro f. apply Qcompare_comp; [|reflexivity]. now rewrite E. }
    now rewrite C. }
  rewrite R. reflexivity.
Qed.
End NumFacts.

(** ** Float rounding *)

Section FloatFacts.
Local Open Scope Q_scope.

Lemma round_half_even_near (x : Q) :
  (Qfloor x <= round_half_even x <= Qfloor x + 1)%Z /\
  - (1 # 2) <= inject_Z (round_half_even x) - x <= 1 # 2.
Proof.
  unfold round_half_even.
  pose proof (Qfloor_le x) as Hl. pose proof (Qlt_floor x) as Hu.
  rewrite inject_Z_plus in Hu. change (inject_Z 1) with 1 in Hu.
  destruct (x - inject_Z (Qfloor x) ?= 1 # 2) eqn:E.
  - apply Qeq_alt in E.
    destruct (Z.even (Qfloor x)); (split; [lia|]);
      rewrite ?inject_Z_plus; change (inject_Z 1) with 1; lra.
  - apply Qlt_alt in E. split; [lia | lra].
  - apply Qgt_alt in E. split; [lia|].
    rewrite inject_Z_plus. change (inject_Z 1) with 1. lra.
Qed.

Lemma round_half_even_ge (n : Z) (x : Q) :
  inject_Z n <= x -> (n <= round_half_even x)%Z.
Proof.
  intro H. apply Qfloor_resp_le in H. rewrite Qfloor_Z in H.
  pose proof (round_half_even_near x) as [[H1 _] _]. lia.
Qed.

Lemma Qpow2_pos (z : Z) : 0 < 2 ^ z.
Proof. apply Qpower_0_lt. reflexivity. Qed.

Lemma Qpow2_inject (n : Z) : (0 <= n)%Z -> inject_Z (2 ^ n) == 2 ^ n.
Proof. intro H. now rewrite Zpower_Qpower. Qed.

Lemma Qpow2_succ (z : Z) : 2 ^ (z + 1) == 2 * 2 ^ z.
Proof. rewrite Qpower_plus by discriminate. rewrite Qpower_1_r. ring. Qed.

Lemma Qabs_positive (q : Q) : 0 < q -> Qabs q = q.
Proof.
  destruct q as [a b]. unfold Qlt, Qabs. simpl. intro H.
  f_equal. lia.
Qed.

(** [ilog2 q] is the exponent of [q]: the power of two at or below it. *)
Lemma ilog2_spec (q : Q) :
  0 < q -> 2 ^ ilog2 q <= q /\ q < 2 ^ (ilog2 q + 1).
Proof.
  intro Hq. unfold ilog2.
  destruct (Qle_bool 1 q) eqn:E.
  - apply Qle_bool_iff in E.
    assert (Hf : (1 <= Qfloor q)%Z).
    { change 1%Z with (Qfloor 1). now apply Qfloor_resp_le. }
    destruct (Z.log2_spec (Qfloor q)) as [H1 H2]; [lia|].
    pose proof (Z.log2_nonneg (Qfloor q)) as Hn.
    split.
    + rewrite <- Qpow2_inject by exact Hn.
      apply Qle_trans with (inject_Z (Qfloor q)); [|apply Qfloor_le].
      now rewrite <- Zle_Qle.
    + rewrite <- Qpow2_inject by lia.
      apply Qlt_le_trans with (inject_Z (Qfloor q + 1)); [apply Qlt_floor|].
      rewrite <- Zle_Qle. unfold Z.succ in H2. lia.
  - assert (Hlt : q < 1).
    { apply Qnot_le_lt. intro H. apply Qle_bool_iff in H. congruence. }
    set (c := Qceiling (/ q)).
    assert (Hi : 1 < / q).
    { apply Qlt_shift_inv_l; [exact Hq | lra]. }
    assert (Hc : (1 < c)%Z).
    { pose proof (Qle_ceiling (/ q)) as H. fold c in H.
      assert (H' : inject_Z 1 < inject_Z c) by (change (inject_Z 1) with 1; lra).
      now rewrite <- Zlt_Qlt in H'. }
    destruct (Z.log2_up_spec c Hc) as [H1 H2].
    pose proof (Z.log2_up_nonneg c) as Hn.
    assert (Hu : (0 < Z.log2_up c)%Z) by (apply Z.log2_up_pos; lia).
    split.
    + rewrite Qpower_opp. apply Qle_shift_inv_r; [apply Qpow2_pos|].
      rewrite <- Qpow2_inject by exact Hn.
      assert (H : / q <= inject_Z (2 ^ Z.log2_up c)).
      { apply Qle_trans with (inject_Z c); [apply Qle_ceiling|].
        now rewrite <- Zle_Qle. }
      assert (Hm : / q * q == 1) by (field; lra).
      assert (Hp : 0 <= inject_Z (2 ^ Z.log2_up c) - / q) by lra.
      assert (Hm2 : 0 <= (inject_Z (2 ^ Z.log2_up c) - / q) * q).
      { apply Qmult_le_0_compat; lra. }
      lra.
    + replace (- Z.log2_up c + 1)%Z with (- (Z.log2_up c - 1))%Z by lia.
      rewrite Qpower_opp. apply Qlt_shift_inv_l; [apply Qpow2_pos|].
      rewrite <- Qpow2_inject by lia.
      assert (H : inject_Z (2 ^ (Z.log2_up c - 1)) < / q).
      { apply Qle_lt_trans with (inject_Z (c - 1)); [|apply Qceiling_lt].
        rewrite <- Zle_Qle. rewrite <- Z.sub_1_r in H1. lia. }
      assert (Hm : / q * q == 1) by (field; lra).
      assert (Hm2 : 0 < (/ q - inject_Z (2 ^ (Z.log2_up c - 1))) * q).
      { apply Qmult_lt_0_compat; lra. }
      lra.
Qed.

Lemma ilog2_comp (x y : Q) : x == y -> ilog2 x = ilog2 y.
Proof.
  intro E. unfold ilog2.
  assert (Hb : Qle_bool 1 x = Qle_bool 1 y).
  { destruct (Qle_bool 1 y) eqn:Ey.
    - apply Qle_bool_iff. apply Qle_bool_iff in Ey. now rewrite E.
    - destruct (Qle_bool 1 x) eqn:Ex; [|reflexivity].
      apply Qle_bool_iff in Ex. rewrite E in Ex.
      apply Qle_bool_iff in Ex. congruence. }
  rewrite Hb, (Qfloor_comp _ _ E).
  assert (Ei : / x == / y) by now rewrite E.
  now rewrite (Qceiling_comp _ _ Ei).
Qed.

Lemma ilog2_below (q : Q) (n : Z) : 0 < q -> q < 2 ^ n -> (ilog2 q < n)%Z.
Proof.
  intros Hq Hn. destruct (ilog2_spec q Hq) as [Hl _].
  apply Qpower_lt_compat_l_inv with 2; [|reflexivity].
  eapply Qle_lt_trans; eassumption.
Qed.

Lemma fp_round_comp (prec : Z) (x y : Q) :
  x == y -> fp_round prec x == fp_round prec y.
Proof.
  intro E. unfold fp_round.
  rewrite (Qeqb_comp x y E 0 0 (Qeq_refl 0)).
  destruct (Qeq_bool y 0); [reflexivity|].
  assert (Ea : Qabs x == Qabs y) by now rewrite E.
  rewrite (ilog2_comp _ _ Ea).
  set (ulp := 2 ^ (ilog2 (Qabs y) - prec + 1)).
  rewrite (round_half_even_comp (x / ulp) (y / ulp)); [reflexivity|].
  now rewrite E.
Qed.

Lemma fp_round_0 (prec : Z) (q : Q) : q == 0 -> fp_round prec q == 0.
Proof.
  intro E. unfold fp_round. now rewrite (Qeq_eq_bool _ _ E).
Qed.

(** The value rounded is a multiple of the unit in the last place. *)
Lemma fp_round_positive (prec : Z) (q : Q) :
  0 < q ->
  fp_round prec q
  = inject_Z (round_half_even (q / 2 ^ (ilog2 q - prec + 1)))
    * 2 ^ (ilog2 q - prec + 1).
Proof.
  intro Hq. unfold fp_round.
  destruct (Qeq_bool q 0) eqn:E.
  - apply Qeq_bool_iff in E. lra.
  - now rewrite (Qabs_positive q Hq).
Qed.

(** Rounding moves a positive value by at most half a unit in the last
    place, which is at most the value times [2 ^ - prec]. *)
Lemma fp_round_error (prec : Z) (q : Q) :
  0 < q ->
  - (q * 2 ^ (- prec)) <= fp_round prec q - q <= q * 2 ^ (- prec).
Proof.
  intro Hq. rewrite (fp_round_positive prec q Hq).
  set (e := ilog2 q).
  set (ulp := 2 ^ (e - prec + 1)).
  assert (Hu : 0 < ulp) by apply Qpow2_pos.
  destruct (round_half_even_near (q / ulp)) as [_ [H1 H2]].
  set (r := inject_Z (round_half_even (q / ulp))) in *.
  assert (Hd : q / ulp * ulp == q) by (field; lra).
  assert (Eu : ulp == 2 * 2 ^ (e - prec)).
  { unfold ulp. replace (e - prec + 1)%Z with ((e - prec) + 1)%Z by lia.
    apply Qpow2_succ. }
  assert (Ee : 2 ^ (e - prec) == 2 ^ e * 2 ^ (- prec)).
  { unfold Z.sub. apply Qpower_plus. discriminate. }
  destruct (ilog2_spec q Hq) as [Hl _]. fold e in Hl.
  assert (Hp : 0 < 2 ^ (- prec)) by apply Qpow2_pos.
  assert (Hb : 2 ^ e * 2 ^ (- prec) <= q * 2 ^ (- prec)).
  { apply Qmult_le_compat_r; lra. }
  assert (Ha : 0 <= (r - q / ulp + (1 # 2)) * ulp).
  { apply Qmult_le_0_compat; lra. }
  assert (Hc : 0 <= ((1 # 2) - (r - q / ulp)) * ulp).
  { apply Qmult_le_0_compat; lra. }
  assert (Hr : r * ulp - q == (r - q / ulp) * ulp).
  { rewrite <- Hd at 1. ring. }
  rewrite Hr. 
  set (d := r - q / ulp) in *.
  assert (X1 : (d + (1#2)) * ulp == d * ulp + 2 ^ (e - prec)).
  { rewrite Eu. ring. }
  assert (X2 : ((1#2) - d) * ulp == 2 ^ (e - prec) - d * ulp).
  { rewrite Eu. ring. }
  rewrite X1 in Ha. rewrite X2 in Hc. rewrite Ee in Ha, Hc.
  split; lra.
Qed.

(** A whole number below [2 ^ prec] is a float of that precision. *)
Lemma fp_round_int (prec z : Z) (q : Q) :
  (0 <= z < 2 ^ prec)%Z -> q == inject_Z z ->
  fp_round prec q == inject_Z z.
Proof.
  intros [H0 H1] E. rewrite (fp_round_comp prec _ _ E).
  destruct (Z.eq_dec z 0) as [->|Hz]; [reflexivity|].
  assert (Hprec : (0 <= prec)%Z).
  { destruct (Z.le_gt_cases 0 prec) as [H|H]; [exact H|].
    rewrite Z.pow_neg_r in H1 by lia. lia. }
  assert (Hq : 0 < inject_Z z).
  { change 0 with (inject_Z 0). rewrite <- Zlt_Qlt. lia. }
  rewrite (fp_round_positive prec _ Hq).
  set (e := ilog2 (inject_Z z)).
  assert (He : (e < prec)%Z).
  { apply ilog2_below; [exact Hq|].
    rewrite <- Qpow2_inject by exact Hprec. now rewrite <- Zlt_Qlt. }
  set (k := (prec - 1 - e)%Z).
  replace (e - prec + 1)%Z with (- k)%Z by (unfold k; lia).
  assert (Hk : (0 <= k)%Z) by (unfold k; lia).
  assert (Ek : 2 ^ (- k) == / inject_Z (2 ^ k)).
  { rewrite Qpower_opp. now rewrite Qpow2_inject. }
  assert (Hkp : 0 < inject_Z (2 ^ k)).
  { rewrite Qpow2_inject by exact Hk. apply Qpow2_pos. }
  assert (Ex : inject_Z z / 2 ^ (- k) == inject_Z (z * 2 ^ k)).
  { rewrite Ek, inject_Z_mult. field. lra. }
  rewrite (round_half_even_comp _ _ Ex), round_half_even_Z.
  rewrite Ek, inject_Z_mult. field. lra.
Qed.

Lemma fp_round_nonneg (prec : Z) (q : Q) : 0 <= q -> 0 <= fp_round prec q.
Proof.
  intro H. destruct (Qeq_dec q 0) as [E|E].
  - rewrite (fp_round_0 _ _ E). apply Qle_refl.
  - assert (Hq : 0 < q).
    { apply Qnot_le_lt. intro H'. apply E. now apply Qle_antisym. }
    rewrite (fp_round_positive prec q Hq).
    apply Qmult_le_0_compat; [|apply Qlt_le_weak, Qpow2_pos].
    change 0 with (inject_Z 0). rewrite <- Zle_Qle.
    apply round_half_even_ge. change (inject_Z 0) with 0.
    apply Qle_shift_div_l; [apply Qpow2_pos | rewrite Qmult_0_l; lra].
Qed.


(** The quotient of a sum of [n] 8-bit values by [n], rounded to a float
    of precision [prec] and truncated, is the integer quotient as long as
    [n] stays below [2 ^ (prec - 8)]. *)
Lemma fp_quotient_truncated (prec s n : Z) (q : Q) :
  (0 <= s <= 255 * n)%Z -> (0 < n < 2 ^ (prec - 8))%Z ->
  q == inject_Z s / inject_Z n ->
  py_int (fp_round prec q) = (s / n)%Z.
Proof.
  intros [Hs0 Hs1] [Hn0 Hn1] Eq.
  assert (Hprec : (8 < prec)%Z).
  { destruct (Z.lt_trichotomy (prec - 8) 0) as [H|[H|H]]; [| |lia].
    - rewrite Z.pow_neg_r in Hn1 by lia. lia.
    - rewrite H in Hn1. simpl in Hn1. lia. }
  assert (HN : 0 < inject_Z n).
  { change 0 with (inject_Z 0). now rewrite <- Zlt_Qlt. }
  rewrite (py_int_comp _ _ (fp_round_comp prec _ _ Eq)).
  destruct (Z.eq_dec s 0) as [->|Hs].
  - rewrite (py_int_comp _ 0).
    + reflexivity.
    + apply fp_round_0. unfold Qdiv. ring.
  - set (q0 := inject_Z s / inject_Z n).
    assert (Hq : 0 < q0).
    { unfold q0. apply Qlt_shift_div_l; [exact HN|].
      rewrite Qmult_0_l. change 0 with (inject_Z 0).
      rewrite <- Zlt_Qlt. lia. }
    assert (Hq8 : q0 < 2 ^ 8).
    { unfold q0. apply Qlt_shift_div_r; [exact HN|].
      change (2 ^ 8) with (inject_Z 256). rewrite <- inject_Z_mult.
      rewrite <- Zlt_Qlt. lia. }
    pose proof (ilog2_below q0 8 Hq Hq8) as He.
    rewrite (fp_round_positive prec q0 Hq).
    set (k := (prec - 1 - ilog2 q0)%Z).
    replace (ilog2 q0 - prec + 1)%Z with (- k)%Z by (unfold k; lia).
    assert (Hk : (prec - 8 <= k)%Z) by (unfold k; lia).
    set (P := (2 ^ k)%Z).
    assert (HP : (n < P)%Z).
    { unfold P. eapply Z.lt_le_trans; [exact Hn1|].
      apply Z.pow_le_mono_r; lia. }
    assert (Ek : 2 ^ (- k) == / inject_Z P).
    { rewrite Qpower_opp. unfold P. rewrite Qpow2_inject by lia.
      reflexivity. }
    assert (HPq : 0 < inject_Z P).
    { change 0 with (inject_Z 0). rewrite <- Zlt_Qlt. lia. }
    assert (Ex : q0 / 2 ^ (- k) == inject_Z (s * P) / inject_Z n).
    { rewrite Ek, inject_Z_mult. unfold q0. field. split; lra. }
    rewrite (round_half_even_comp _ _ Ex).
    set (x := inject_Z (s * P) / inject_Z n).
    set (R := round_half_even x).
    set (m := (s / n)%Z).
    assert (Hm : (n * m <= s < n * (m + 1))%Z).
    { unfold m. split.
      - apply Z.mul_div_le. lia.
      - rewrite Z.mul_add_distr_l, Z.mul_1_r.
        pose proof (Z.mod_pos_bound s n Hn0) as Hb.
        rewrite (Z.div_mod s n) at 1 by lia. lia. }
    assert (Hxn : x * inject_Z n == inject_Z (s * P)).
    { unfold x. field. lra. }
    assert (Hlow : (m * P <= R)%Z).
    { apply round_half_even_ge. unfold x.
      apply Qle_shift_div_l; [exact HN|].
      rewrite <- inject_Z_mult, <- Zle_Qle. nia. }
    assert (Hup : (R < (m + 1) * P)%Z).
    { destruct (round_half_even_near x) as [_ [_ Hh]]. fold R in Hh.
      assert (H1 : (inject_Z R - x) * inject_Z n <= (1 # 2) * inject_Z n).
      { apply Qmult_le_compat_r; lra. }
      assert (H2 : inject_Z (2 * R * n) <= inject_Z (2 * (s * P) + n)).
      { rewrite inject_Z_plus, !inject_Z_mult.
        rewrite inject_Z_mult in Hxn.
        change (inject_Z 2) with 2.
        setoid_replace ((inject_Z R - x) * inject_Z n)
          with (inject_Z R * inject_Z n - inject_Z s * inject_Z P) in H1
          by (rewrite <- Hxn; ring).
        lra. }
      rewrite <- Zle_Qle in H2. nia. }
    assert (Hv : 0 <= inject_Z R * 2 ^ (- k)).
    { apply Qmult_le_0_compat; [|apply Qlt_le_weak, Qpow2_pos].
      change 0 with (inject_Z 0). rewrite <- Zle_Qle.
      assert (0 <= m)%Z by (apply Z.div_pos; lia). nia. }
    rewrite (py_int_nonneg _ Hv).
    assert (Ev : inject_Z R * 2 ^ (- k) == inject_Z R / inject_Z P).
    { rewrite Ek. reflexivity. }
    rewrite (Qfloor_comp _ _ Ev), <- Zdiv_Qdiv.
    symmetry. apply Z.div_unique with (R - m * P)%Z; lia.
Qed.

(** [int(h * (W / w))] in binary64 for sizes with [h * W < 2 ^ 51]: the
    two roundings lower the truncated height by at most one and never
    raise it. *)
Lemma scaled_height_bounds (w h W : Z) :
  (0 < w)%Z -> (0 < h)%Z -> (0 < W)%Z -> (h * W < 2 ^ 51)%Z ->
  let p := binary64 (binary64 (inject_Z h)
                     * binary64 (inject_Z W / inject_Z w)) in
  0 <= p /\ (h * W / w - 1 <= py_int p <= h * W / w)%Z.
Proof.
  intros Hw Hh HW Hsize p. unfold binary64 in p.
  assert (Eu : 2 ^ (- 53) == 1 # 9007199254740992) by reflexivity.
  set (wq := inject_Z w). set (hq := inject_Z h). set (Wq := inject_Z W).
  assert (Hwq : 0 < wq).
  { change 0 with (inject_Z 0). unfold wq. now rewrite <- Zlt_Qlt. }
  assert (Hhq : 0 < hq).
  { change 0 with (inject_Z 0). unfold hq. now rewrite <- Zlt_Qlt. }
  assert (HWq : 0 < Wq).
  { change 0 with (inject_Z 0). unfold Wq. now rewrite <- Zlt_Qlt. }
  set (a := Wq / wq).
  assert (Ha : 0 < a).
  { unfold a. apply Qlt_shift_div_l; [exact Hwq | lra]. }
  assert (Haw : a * wq == Wq) by (unfold a; field; lra).
  set (r := fp_round 53 a).
  pose proof (fp_round_error 53 a Ha) as E1. fold r in E1. rewrite Eu in E1.
  assert (Efh : fp_round 53 hq == hq).
  { apply fp_round_int; [|reflexivity]. split; [lia|].
    change (2 ^ 53)%Z with 9007199254740992%Z.
    change (2 ^ 51)%Z with 2251799813685248%Z in Hsize. nia. }
  assert (Ep : p == fp_round 53 (hq * r)).
  { unfold p. apply fp_round_comp. fold hq a r. now rewrite Efh. }
  set (t := hq * r) in *.
  assert (Hr : 0 < r) by lra.
  assert (Ht : 0 < t) by (unfold t; apply Qmult_lt_0_compat; assumption).
  pose proof (fp_round_error 53 t Ht) as E2. rewrite Eu in E2.
  set (p' := fp_round 53 t) in *.
  set (X := inject_Z (h * W)).
  assert (EX : X == hq * Wq).
  { unfold X, hq, Wq. rewrite inject_Z_mult. reflexivity. }
  assert (HX : 0 < X).
  { rewrite EX. apply Qmult_lt_0_compat; assumption. }
  assert (HX51 : X < 2251799813685248).
  { unfold X. change 2251799813685248 with (inject_Z 2251799813685248).
    rewrite <- Zlt_Qlt. exact Hsize. }
  set (u := 1 # 9007199254740992) in *.
  (* everything times the width *)
  assert (T1 : X * (1 - u) <= t * wq <= X * (1 + u)).
  { assert (A1 : 0 <= (r - a + a * u) * (hq * wq)).
    { apply Qmult_le_0_compat; [lra|].
      apply Qlt_le_weak, Qmult_lt_0_compat; assumption. }
    assert (A2 : 0 <= (a * u - (r - a)) * (hq * wq)).
    { apply Qmult_le_0_compat; [lra|].
      apply Qlt_le_weak, Qmult_lt_0_compat; assumption. }
    assert (B1 : (r - a + a * u) * (hq * wq)
                 == t * wq - X * (1 - u)).
    { rewrite EX, <- Haw. unfold t. ring. }
    assert (B2 : (a * u - (r - a)) * (hq * wq)
                 == X * (1 + u) - t * wq).
    { rewrite EX, <- Haw. unfold t. ring. }
    rewrite B1 in A1. rewrite B2 in A2. split; lra. }
  assert (T2 : t * wq * (1 - u) <= p' * wq <= t * wq * (1 + u)).
  { assert (A1 : 0 <= (p' - t + t * u) * wq).
    { apply Qmult_le_0_compat; lra. }
    assert (A2 : 0 <= (t * u - (p' - t)) * wq).
    { apply Qmult_le_0_compat; lra. }
    assert (B1 : (p' - t + t * u) * wq == p' * wq - t * wq * (1 - u))
      by ring.
    assert (B2 : (t * u - (p' - t)) * wq == t * wq * (1 + u) - p' * wq)
      by ring.
    rewrite B1 in A1. rewrite B2 in A2. split; lra. }
  set (T := t * wq) in *. set (Pw := p' * wq) in *.
  assert (Hhi : Pw < X + 1).
  { unfold u in *. lra. }
  assert (Hlo : X - 1 < Pw).
  { unfold u in *. lra. }
  assert (Hp0 : 0 <= p') by (apply fp_round_nonneg; lra).
  set (m := (h * W / w)%Z).
  assert (Hm : (w * m <= h * W < w * (m + 1))%Z).
  { unfold m. split.
    - apply Z.mul_div_le. lia.
    - rewrite Z.mul_add_distr_l, Z.mul_1_r.
      pose proof (Z.mod_pos_bound (h * W) w Hw) as Hb.
      rewrite (Z.div_mod (h * W) w) at 1 by lia. lia. }
  assert (M1 : wq * inject_Z m <= X /\ X + 1 <= wq * inject_Z (m + 1)).
  { unfold wq, X. rewrite <- !inject_Z_mult.
    change 1 with (inject_Z 1). rewrite <- inject_Z_plus.
    rewrite <- !Zle_Qle. lia. }
  assert (Hlt : p' < inject_Z (m + 1)).
  { apply (Qmult_lt_r _ _ wq Hwq). fold Pw.
    rewrite (Qmult_comm (inject_Z (m + 1))). lra. }
  assert (Hgt : inject_Z (m - 1) < p').
  { apply (Qmult_lt_r _ _ wq Hwq). fold Pw.
    rewrite (Qmult_comm (inject_Z (m - 1))).
    assert (M2 : wq * inject_Z (m - 1) <= X - 1).
    { unfold wq, X. rewrite <- !inject_Z_mult.
      change 1 with (inject_Z 1). unfold Qminus.
      rewrite <- inject_Z_opp, <- inject_Z_plus.
      rewrite <- !Zle_Qle. lia. }
    lra. }
  split; [now rewrite Ep|].
  rewrite (py_int_comp _ _ Ep), (py_int_nonneg _ Hp0).
  split.
  - apply Qlt_le_weak, Qfloor_resp_le in Hgt. now rewrite Qfloor_Z in Hgt.
  - assert (H : inject_Z (Qfloor p') < inject_Z (m + 1)).
    { eapply Qle_lt_trans; [apply Qfloor_le | exact Hlt]. }
    rewrite <- Zlt_Qlt in H. lia.
Qed.

End FloatFacts.

(** ** Normalization: the size of the output *)

Section NormalizeFacts.
Import Preprocess.
Variable auto_crop_content : Image -> Image.

Lemma new_height_bounds (w h target : Z) :
  0 < w -> 0 < h -> 0 < target -> h * target < 2 ^ 51 ->
  h * target / w - 1 <= new_height w h target <= h * target / w.
Proof.
  intros Hw Hh Ht Hs. unfold new_height.
  apply (scaled_height_bounds w h target Hw Hh Ht Hs).
Qed.

Lemma resize_to_width_size (img out : Image) (target : Z) :
  0 < width img -> 0 < height img ->
  resize_to_width img target = Some out ->
  width out = target /\
  height out = (if width img =? target then height img
                else new_height (width img) (height img) target) /\
  (0 < target -> height img * target < 2 ^ 51 ->
   height img * target / width img - 1 <= height out
   <= height img * target / width img).
Proof.
  intros Hw Hh. unfold resize_to_width.
  destruct (width img =? target) eqn:E; cbn [negb].
  - apply Z.eqb_eq in E. intros [= <-].
    split; [exact E|]. split; [reflexivity|]. intros _ _.
    rewrite <- E, Z.div_mul by lia. lia.
  - assert (E0 : (width img =? 0) = false) by (apply Z.eqb_neq; lia).
    rewrite E0. unfold Image_resize.
    destruct ((target <? 1) || _); [discriminate|].
    intros [= <-]. cbn [width height].
    split; [reflexivity|]. split; [reflexivity|].
    intros Ht Hs. now apply new_height_bounds.
Qed.

Lemma resize_to_width_returns (img : Image) (target : Z) :
  0 < width img -> 0 < height img -> 0 < target ->
  (width img = target
   \/ 1 <= new_height (width img) (height img) target) <->
  exists out, resize_to_width img target = Some out.
Proof.
  intros Hw Hh Ht. unfold resize_to_width.
  assert (E0 : (width img =? 0) = false) by (apply Z.eqb_neq; lia).
  assert (Et : (target <? 1) = false) by (apply Z.ltb_ge; lia).
  destruct (width img =? target) eqn:E; cbn [negb].
  - apply Z.eqb_eq in E. split; [eexists; reflexivity | now left].
  - apply Z.eqb_neq in E. rewrite E0. unfold Image_resize. rewrite Et.
    cbn [orb].
    destruct (new_height (width img) (height img) target <? 1) eqn:En.
    + apply Z.ltb_lt in En. split.
      * intros [H|H]; [congruence | lia].
      * intros [out H]. discriminate.
    + apply Z.ltb_ge in En. split; [eexists; reflexivity | now right].
Qed.

(** C2, as the code has it: on the decoded (and possibly auto-cropped)
    image of width [w] and height [h], every image that normalization to
    the target width [W] returns has width exactly [W]; it is the image
    itself when [w = W], and otherwise its height is [int(h * (W / w))]
    in float arithmetic, which for [h * W < 2^51] is [floor(h*W/w)] or one
    less: the product is truncated, never rounded up.  An image is returned
    exactly when [w = W] or that height is at least 1, in particular
    whenever [floor(h*W/w) >= 2]. *)
Theorem load_and_normalize_size (decoded : Image) (target : Z)
    (auto_crop : bool) :
  let img := if auto_crop then auto_crop_content decoded else decoded in
  let w := width img in
  let h := height img in
  0 < w -> 0 < h ->
  (forall out,
     load_and_normalize auto_crop_content decoded target auto_crop
     = Some out ->
     width out = target /\
     height out = (if w =? target then h else new_height w h target) /\
     (0 < target -> h * target < 2 ^ 51 ->
      h * target / w - 1 <= height out <= h * target / w)) /\
  (0 < target ->
   ((w = target \/ 1 <= new_height w h target) <->
    exists out,
      load_and_normalize auto_crop_content decoded target auto_crop
      = Some out)) /\
  (0 < target -> h * target < 2 ^ 51 -> 2 <= h * target / w ->
   exists out,
     load_and_normalize auto_crop_content decoded target auto_crop
     = Some out).
Proof.
  intros img w h Hw Hh. unfold load_and_normalize. fold img.
  split; [|split].
  - intros out Hout. now apply resize_to_width_size.
  - intro Ht. now apply resize_to_width_returns.
  - intros Ht Hs Hn. apply resize_to_width_returns; try assumption.
    right. pose proof (new_height_bounds w h target Hw Hh Ht Hs). fold w h.
    lia.
Qed.
End NormalizeFacts.

(** C2 at a 2000 x 1000 image and width 1200: the output is 1200 x 600. *)
Lemma load_and_normalize_size_witness :
  let img := Preprocess.mkImage 2000 1000 in
  (exists out,
     Preprocess.load_and_normalize (fun i => i) img 1200 false = Some out) /\
  (forall out,
     Preprocess.load_and_normalize (fun i => i) img 1200 false = Some out ->
     Preprocess.width out = 1200 /\ Preprocess.height out = 600).
Proof.
  pose proof (load_and_normalize_size (fun i => i)
                (Preprocess.mkImage 2000 1000) 1200 false) as H.
  cbn [Preprocess.width Preprocess.height] in H.
  destruct H as (H1 & _ & H3); [lia | lia |].
  split.
  - apply H3; [lia | lia | vm_compute; discriminate].
  - intros out Hout. destruct (H1 out Hout) as (Hw & Hh & _).
    split; [exact Hw | rewrite Hh; vm_compute; reflexivity].
Defined.

(** The rounding model against the machine's binary64 floats: the height
    agrees for every image of up to 32 x 32 pixels at the widths 1, 29
    and 1200. *)
Lemma new_height_on_hardware :
  forallb
    (fun target =>
       forallb
         (fun w =>
            forallb
              (fun h =>
                 match Preprocess.new_height_binary64 w h target with
                 | Some v => v =? Preprocess.new_height w h target
                 | None => false
                 end)
              (map Z.of_nat (seq 1 32)))
         (map Z.of_nat (seq 1 32)))
    [1; 29; 1200]
  = true.
Proof. vm_compute. reflexivity. Qed.

(** Where the two roundings show: the quotient [W / w] is rounded before
    the product is truncated, so a 281 x 281 image at width 1200 comes out
    1199 high and a 100 x 100 image at width 29 comes out 28 high, one
    below [floor(h*W/w)]; a 49 x 49 image at width 1 would be 0 high, and
    Pillow raises. *)
Lemma new_height_examples :
  Preprocess.new_height 2000 1000 1200 = 600 /\
  Preprocess.new_height 4 7 1 = 1 /\
  Preprocess.new_height 281 281 1200 = 1199 /\
  Preprocess.new_height 100 100 29 = 28 /\
  Preprocess.new_height_binary64 281 281 1200 = Some 1199 /\
  Preprocess.load_and_normalize (fun i => i) (Preprocess.mkImage 49 49) 1
    false = None.
Proof. repeat split; vm_compute; reflexivity. Qed.

(** C2 as stated fails: a 4 x 7 image normalized to width 1 comes out one
    pixel high, while [round(7 * 1 / 4) = round(1.75) = 2]. *)
Lemma load_and_normalize_height_not_rounded :
  exists out,
    Preprocess.load_and_normalize (fun i => i) (Preprocess.mkImage 4 7) 1 false
    = Some out /\
    Preprocess.width out = 1 /\
    Preprocess.height out = 1 /\
    Preprocess.spec_height 4 7 1 = 2 /\
    Preprocess.height out <> Preprocess.spec_height 4 7 1.
Proof.
  exists (Preprocess.mkImage 1 1).
  repeat split; try (vm_compute; reflexivity). vm_compute. discriminate.
Qed.

(** ** Palette extraction: counting and ranking *)

Section RankingFacts.
Import ColorTransfer.
Context {A : Type} (key : A -> nat).

Lemma insert_desc_perm (x : A) (l : list A) :
  Permutation (x :: l) (insert_desc key x l).
Proof.
  induction l as [|y l IH]; simpl; [reflexivity|].
  destruct (key x <? key y)%nat; [|reflexivity].
  rewrite perm_swap. now constructor.
Qed.

Lemma sorted_desc_perm (l : list A) : Permutation l (sorted_desc key l).
Proof.
  induction l as [|x l IH]; simpl; [constructor|].
  rewrite <- insert_desc_perm. now constructor.
Qed.

Lemma insert_desc_sorted (x : A) (l : list A) :
  StronglySorted (key_ge key) l -> StronglySorted (key_ge key) (insert_desc key x l).
Proof.
  induction 1 as [|y l Hs IH Hy]; simpl.
  - repeat constructor.
  - destruct (key x <? key y)%nat eqn:E.
    + apply Nat.ltb_lt in E. constructor; [exact IH|].
      apply (Permutation_Forall (insert_desc_perm x l)).
      constructor; [unfold key_ge; lia | exact Hy].
    + apply Nat.ltb_ge in E. constructor.
      * now constructor.
      * constructor; [exact E|].
        eapply Forall_impl; [|exact Hy].
        unfold key_ge. intros; lia.
Qed.

Lemma sorted_desc_sorted (l : list A) :
  StronglySorted (key_ge key) (sorted_desc key l).
Proof.
  induction l; simpl; [constructor | now apply insert_desc_sorted].
Qed.
End RankingFacts.

Section CounterFacts.
Import ColorTransfer.

Lemma counter_incr_keys (x : nat) (c : list (nat * nat)) :
  map fst (counter_incr x c)
  = if existsb (Nat.eqb x) (map fst c) then map fst c
    else map fst c ++ [x].
Proof.
  induction c as [|[y n] c IH]; simpl; [reflexivity|].
  destruct (Nat.eqb x y) eqn:E; simpl; [reflexivity|].
  rewrite IH. now destruct (existsb _ _).
Qed.

Lemma counter_incr_NoDup (x : nat) (c : list (nat * nat)) :
  NoDup (map fst c) -> NoDup (map fst (counter_incr x c)).
Proof.
  intro H. rewrite counter_incr_keys.
  destruct (existsb (Nat.eqb x) (map fst c)) eqn:E; [exact H|].
  apply NoDup_app; [exact H | repeat constructor; intros [] |].
  intros a Ha [Hx|[]]. subst a.
  assert (existsb (Nat.eqb x) (map fst c) = true); [|congruence].
  apply existsb_exists. exists x. split; [exact Ha | apply Nat.eqb_refl].
Qed.

Lemma counter_incr_incl (x : nat) (c : list (nat * nat)) (seen : list nat) :
  incl (map fst c) seen -> incl (map fst (counter_incr x c)) (x :: seen).
Proof.
  intro H. rewrite counter_incr_keys.
  destruct (existsb _ _).
  - intros a Ha. right. now apply H.
  - intros a Ha. apply in_app_or in Ha as [Ha|[<-|[]]].
    + right. now apply H.
    + now left.
Qed.

Lemma fold_counter_keys (labels : list nat) (c : list (nat * nat)) :
  NoDup (map fst c) ->
  NoDup (map fst (fold_left (fun c x => counter_incr x c) labels c)) /\
  incl (map fst (fold_left (fun c x => counter_incr x c) labels c))
       (labels ++ map fst c) /\
  (labels <> [] \/ c <> [] ->
   fold_left (fun c x => counter_incr x c) labels c <> []).
Proof.
  revert c. induction labels as [|x labels IH]; intros c Hc; simpl.
  - repeat split; [exact Hc | apply incl_refl | now intros [|]].
  - destruct (IH (counter_incr x c) (counter_incr_NoDup x c Hc))
      as (Hn & Hi & Hne).
    repeat split; [exact Hn | |].
    + intros a Ha. apply Hi in Ha. apply in_app_or in Ha as [Ha|Ha].
      * right. apply in_or_app. now left.
      * apply (counter_incr_incl x c (map fst c) (incl_refl _)) in Ha.
        destruct Ha as [<-|Ha]; [now left|].
        right. apply in_or_app. now right.
    + intros _. apply Hne. right.
      destruct c as [|[y n] c]; simpl; [discriminate|].
      destruct (Nat.eqb x y); discriminate.
Qed.

Lemma Counter_keys (labels : list nat) :
  NoDup (map fst (Counter labels)) /\
  incl (map fst (Counter labels)) labels /\
  (labels <> [] -> Counter labels <> []).
Proof.
  destruct (fold_counter_keys labels [] (NoDup_nil _)) as (Hn & Hi & Hne).
  repeat split; [exact Hn | | ].
  - intros a Ha. apply Hi in Ha. now rewrite app_nil_r in Ha.
  - intro H. apply Hne. now left.
Qed.

(** Distinct labels below [k] are at most [k]. *)
Lemma distinct_below (k : nat) (l : list nat) :
  NoDup l -> Forall (fun i => (i < k)%nat) l -> (List.length l <= k)%nat.
Proof.
  intros Hn Hf.
  assert (Hi : incl l (seq 0 k)).
  { intros a Ha. apply in_seq. rewrite Forall_forall in Hf.
    specialize (Hf a Ha). lia. }
  pose proof (NoDup_incl_length Hn Hi) as H.
  now rewrite length_seq in H.
Qed.
End CounterFacts.

(** ** Palette extraction: entries and roles *)

Section PaletteFacts.
Import ColorTransfer.
Local Open Scope Q_scope.

Lemma frequency_mono (a b total : nat) :
  (a <= b)%nat ->
  inject_Z (Z.of_nat a) / inject_Z (Z.of_nat total)
  <= inject_Z (Z.of_nat b) / inject_Z (Z.of_nat total).
Proof.
  intro H. unfold Qdiv. apply Qmult_le_compat_r.
  - rewrite <- Zle_Qle. lia.
  - apply Qinv_le_0_compat. change 0 with (inject_Z 0).
    rewrite <- Zle_Qle. lia.
Qed.

Variables (centers : list (triple Z)) (counts : list (nat * nat))
          (total : nat).

Lemma build_colors_length (indices : list nat) (cs : list PaletteEntry) :
  build_colors centers counts total indices = Some cs ->
  List.length cs = List.length indices.
Proof.
  revert cs. induction indices as [|i l IH]; simpl; intros cs H.
  - now inversion H.
  - destruct (nth_error centers i); [|discriminate].
    destruct (build_colors centers counts total l); [|discriminate].
    inversion H. simpl. f_equal. now apply IH.
Qed.

Lemma build_colors_Forall (P : nat -> Prop) (R : PaletteEntry -> Prop)
    (indices : list nat) (cs : list PaletteEntry) :
  (forall i c, P i ->
     R (mkEntry (hex_color c) c
          (inject_Z (Z.of_nat (count_of counts i))
           / inject_Z (Z.of_nat total)))) ->
  Forall P indices ->
  build_colors centers counts total indices = Some cs ->
  Forall R cs.
Proof.
  intros HPR. revert cs.
  induction indices as [|i l IH]; simpl; intros cs HP H.
  - inversion H. constructor.
  - destruct (nth_error centers i); [|discriminate].
    destruct (build_colors centers counts total l); [|discriminate].
    inversion HP; subst. inversion H. constructor; auto.
Qed.

Lemma build_colors_sorted (indices : list nat) (cs : list PaletteEntry) :
  StronglySorted (key_ge (count_of counts)) indices ->
  build_colors centers counts total indices = Some cs ->
  StronglySorted freq_ge cs.
Proof.
  intros Hs. revert cs.
  induction Hs as [|i l Hs IH Hi]; simpl; intros cs H.
  - inversion H. constructor.
  - destruct (nth_error centers i) as [c|]; [|discriminate].
    destruct (build_colors centers counts total l) as [es|] eqn:E;
      [|discriminate].
    inversion H. constructor; [now apply IH|].
    eapply build_colors_Forall; [|exact Hi|exact E].
    intros j c' Hj. unfold freq_ge. simpl.
    apply frequency_mono. exact Hj.
Qed.

Lemma build_colors_total (indices : list nat) :
  Forall (fun i => (i < List.length centers)%nat) indices ->
  exists cs, build_colors centers counts total indices = Some cs.
Proof.
  induction 1 as [|i l Hi _ [es IH]]; simpl; [now eexists|].
  destruct (nth_error centers i) eqn:E.
  - rewrite IH. now eexists.
  - apply nth_error_None in E. lia.
Qed.
End PaletteFacts.

Section AccentFacts.
Import ColorTransfer.

Lemma hex_color_nonempty (c : triple Z) :
  String.eqb (hex_color c) EmptyString = false.
Proof. destruct c as [[r g] b]. reflexivity. Qed.

Lemma accent_fold (l : list PaletteEntry) (acc : option string) (m : Z) :
  let out := fold_left accent_step l (acc, m) in
  Forall (fun e => saturation (rgb e) <= snd out) l /\
  ((out = (acc, m) /\ Forall (fun e => saturation (rgb e) <= m) l) \/
   (exists e, In e l /\ fst out = Some (hex e) /\
              snd out = saturation (rgb e) /\ m < snd out)).
Proof.
  revert acc m. induction l as [|c l IH]; intros acc m; simpl.
  - split; [constructor | left; split; [reflexivity | constructor]].
  - destruct (m <? saturation (rgb c)) eqn:E.
    + apply Z.ltb_lt in E.
      destruct (IH (Some (hex c)) (saturation (rgb c))) as [Hall Hcase].
      assert (Hc : saturation (rgb c)
                   <= snd (fold_left accent_step l
                             (Some (hex c), saturation (rgb c)))).
      { destruct Hcase as [[-> _]|(e & _ & _ & _ & Hlt)];
          [simpl; lia | lia]. }
      split; [constructor; assumption|].
      right. destruct Hcase as [[Heq Hle]|(e & Hin & Hf & Hs & Hlt)].
      * exists c. rewrite Heq. simpl. repeat split; auto.
      * exists e. repeat split; auto. lia.
    + apply Z.ltb_ge in E.
      destruct (IH acc m) as [Hall Hcase].
      assert (Hm : m <= snd (fold_left accent_step l (acc, m))).
      { destruct Hcase as [[-> _]|(e & _ & _ & _ & Hlt)];
          [simpl; lia | lia]. }
      split; [constructor; [lia | assumption]|].
      destruct Hcase as [[Heq Hle]|(e & Hin & Hf & Hs & Hlt)].
      * left. split; [exact Heq | constructor; assumption].
      * right. exists e. repeat split; auto.
Qed.
End AccentFacts.

Section PaletteTheorems.
Import ColorTransfer.
Variable kmeans :
  list (triple Q) -> Z -> option (list (triple Q) * list nat).
Variable nan_as_int : Z.

(** What a palette of the k-means branch is made of. *)
Lemma kmeans_palette_inv (pixels : list (triple Q)) (k : Z) (p : Palette) :
  kmeans_palette kmeans pixels k = Some p ->
  exists cluster_centers labels bg rest,
    kmeans pixels k = Some (cluster_centers, labels) /\
    build_colors (map (map3 py_int) cluster_centers) (Counter labels)
      (List.length labels)
      (sorted_desc (count_of (Counter labels)) (map fst (Counter labels)))
    = Some (bg :: rest) /\
    colors p = map hex (bg :: rest) /\
    palette_details p = Some (bg :: rest) /\
    primary_background p = hex bg /\
    accent p = Some match rest with
                    | [] => hex bg
                    | c1 :: _ => py_or (fst (accent_loop (bg :: rest))) (hex c1)
                    end.
Proof.
  unfold kmeans_palette. intro H.
  destruct (kmeans pixels k) as [[cc labels]|]; [|discriminate].
  destruct (build_colors _ _ _ _) as [[|bg rest]|] eqn:E; try discriminate.
  exists cc, labels, bg, rest. inversion H; subst; clear H. simpl.
  repeat split; try reflexivity; try assumption.
  destruct rest; reflexivity.
Qed.

Lemma kmeans_palette_sorted (pixels : list (triple Q)) (k : Z) (p : Palette) :
  kmeans_palette kmeans pixels k = Some p ->
  StronglySorted freq_ge (get_palette_details p).
Proof.
  intro H. apply kmeans_palette_inv in H
    as (cc & labels & bg & rest & _ & Hb & _ & Hd & _).
  unfold get_palette_details. rewrite Hd.
  eapply build_colors_sorted; [|exact Hb]. apply sorted_desc_sorted.
Qed.

Lemma kmeans_palette_count (pixels : list (triple Q)) (k : Z) (p : Palette) :
  kmeans_contract kmeans ->
  kmeans_palette kmeans pixels k = Some p ->
  Z.of_nat (List.length (colors p)) <= k.
Proof.
  intros Hk H. apply kmeans_palette_inv in H
    as (cc & labels & bg & rest & Hkm & Hb & Hc & _).
  destruct (Hk _ _ _ _ Hkm) as (_ & _ & Hlt).
  rewrite Hc, length_map, (build_colors_length _ _ _ _ _ Hb).
  destruct (Counter_keys labels) as (Hn & Hi & _).
  pose proof (Permutation_length
                (sorted_desc_perm (count_of (Counter labels))
                   (map fst (Counter labels)))) as Hlen.
  rewrite <- Hlen.
  assert (Hle : (List.length (map fst (Counter labels)) <= Z.to_nat k)%nat).
  { apply distinct_below; [exact Hn|].
    rewrite Forall_forall in *. intros a Ha. apply Hlt, Hi, Ha. }
  assert (Hpos : (1 <= List.length (map fst (Counter labels)))%nat).
  { rewrite Hlen, <- (build_colors_length _ _ _ _ _ Hb). simpl. lia. }
  lia.
Qed.

(** C7: for every image, cluster count [k] and filter flags, a palette
    that [extract_palette] returns has at most [k] entries and its
    detailed entries are in non-increasing order of frequency (given
    that scikit-learn labels every pixel with a cluster below [k]). *)
Theorem extract_palette_ranked (img : list (triple Z)) (k : Z)
    (exclude_near_white exclude_near_black : bool) (p : Palette) :
  kmeans_contract kmeans ->
  extract_palette kmeans nan_as_int img k
    exclude_near_white exclude_near_black = Some p ->
  Z.of_nat (List.length (colors p)) <= k /\
  StronglySorted freq_ge (get_palette_details p) /\
  match palette_details p with
  | Some cs => colors p = map hex cs
  | None => List.length (colors p) = 1%nat
  end.
Proof.
  intros Hk. unfold extract_palette.
  destruct (_ <? k) eqn:E.
  - apply Z.ltb_lt in E. intros [= <-]. simpl.
    repeat split; [lia | constructor].
  - intro H. repeat split.
    + now apply kmeans_palette_count with (pixels := filter_pixels
        exclude_near_white exclude_near_black (map (map3 inject_Z) img)).
    + now apply kmeans_palette_sorted with (pixels := filter_pixels
        exclude_near_white exclude_near_black (map (map3 inject_Z) img))
        (k := k).
    + apply kmeans_palette_inv in H
        as (cc & labels & bg & rest & _ & _ & Hc & Hd & _).
      now rewrite Hd.
Qed.

(** With at least [k >= 1] pixels left and a clustering that returns,
    the k-means branch returns a palette. *)
Lemma extract_palette_returns (img : list (triple Z)) (k : Z)
    (exclude_near_white exclude_near_black : bool) :
  kmeans_contract kmeans ->
  1 <= k ->
  (forall pixels, k <= Z.of_nat (List.length pixels) ->
                  kmeans pixels k <> None) ->
  exists p, extract_palette kmeans nan_as_int img k
              exclude_near_white exclude_near_black = Some p.
Proof.
  intros Hk Hk1 Htot. unfold extract_palette.
  set (pixels := filter_pixels _ _ _).
  destruct (_ <? k) eqn:E; [now eexists|].
  apply Z.ltb_ge in E. unfold kmeans_palette.
  destruct (kmeans pixels k) as [[cc labels]|] eqn:Ekm;
    [|now destruct (Htot pixels E)].
  destruct (Hk _ _ _ _ Ekm) as (Hcc & Hlab & Hlt).
  destruct (Counter_keys labels) as (Hn & Hi & Hne).
  destruct (build_colors_total (map (map3 py_int) cc) (Counter labels)
              (List.length labels)
              (sorted_desc (count_of (Counter labels))
                 (map fst (Counter labels)))) as [cs Hcs].
  { apply (Permutation_Forall (sorted_desc_perm _ _)).
    rewrite Forall_forall in *. intros a Ha.
    rewrite length_map, Hcc. apply Hlt, Hi, Ha. }
  rewrite Hcs. destruct cs as [|bg rest]; [|now eexists].
  apply build_colors_length in Hcs. simpl in Hcs.
  rewrite <- (Permutation_length (sorted_desc_perm _ _)) in Hcs.
  rewrite length_map in Hcs.
  exfalso. apply Hne.
  - intro Hl. rewrite Hl in Hlab. simpl in Hlab. lia.
  - destruct (Counter labels); [reflexivity | discriminate].
Qed.

(** C5: in a palette of the k-means branch the first entry has the
    highest frequency and gives [primary_background]; the accent is the
    hex of a non-background entry of largest channel range when some
    non-background entry has a positive range, otherwise the hex of the
    second entry, and the background itself when it is the only entry. *)
Theorem extract_palette_roles (img : list (triple Z)) (k : Z)
    (exclude_near_white exclude_near_black : bool) (p : Palette) :
  (Z.of_nat (List.length
               (filter_pixels exclude_near_white exclude_near_black
                  (map (map3 inject_Z) img))) <? k) = false ->
  extract_palette kmeans nan_as_int img k
    exclude_near_white exclude_near_black = Some p ->
  exists bg rest,
    palette_details p = Some (bg :: rest) /\
    primary_background p = hex bg /\
    Forall (fun e => (frequency e <= frequency bg)%Q) rest /\
    match rest with
    | [] => accent p = Some (hex bg)
    | second :: _ =>
        (Forall (fun e => saturation (rgb e) <= 0) rest ->
         accent p = Some (hex second)) /\
        (Exists (fun e => 0 < saturation (rgb e)) rest ->
         exists e, In e rest /\ accent p = Some (hex e) /\
           Forall (fun e' => saturation (rgb e') <= saturation (rgb e)) rest)
    end.
Proof.
  intros Hbranch. unfold extract_palette. rewrite Hbranch. intro H.
  pose proof (kmeans_palette_sorted _ _ _ H) as Hs.
  apply kmeans_palette_inv in H
    as (cc & labels & bg & rest & _ & Hb & _ & Hd & Hp & Ha).
  unfold get_palette_details in Hs. rewrite Hd in Hs.
  exists bg, rest. repeat split; [exact Hd | exact Hp | |].
  { inversion Hs; subst. assumption. }
  destruct rest as [|second rest']; [exact Ha|].
  rewrite Ha. unfold accent_loop. simpl tl.
  destruct (accent_fold (second :: rest') None 0) as [Hall Hcase].
  split.
  - intros Hzero.
    destruct Hcase as [[-> _]|(e & Hin & _ & Hsat & Hlt)];
      [reflexivity|].
    rewrite Forall_forall in Hzero. specialize (Hzero e Hin). lia.
  - intros Hex.
    destruct Hcase as [[_ Hle]|(e & Hin & Hf & Hsat & Hlt)].
    + apply Exists_exists in Hex as (e & Hin & Hpos).
      rewrite Forall_forall in Hle. specialize (Hle e Hin). lia.
    + exists e. rewrite Hf. repeat split; [exact Hin | |].
      * simpl.
        assert (He : hex e = hex_color (rgb e)).
        { assert (F : Forall (fun e => hex e = hex_color (rgb e))
                        (bg :: second :: rest')).
          { eapply build_colors_Forall with (P := fun _ => True);
              [| |exact Hb].
            - intros; reflexivity.
            - apply Forall_forall. intros; exact I. }
          rewrite Forall_forall in F. apply F. now right. }
        rewrite He, hex_color_nonempty. reflexivity.
      * rewrite <- Hsat. exact Hall.
Qed.
End PaletteTheorems.

(** The positional clustering of [Sample] meets the contract. *)
Lemma Sample_kmeans_contract : ColorTransfer.kmeans_contract Sample.kmeans.
Proof.
  intros pixels k centers labels. unfold Sample.kmeans.
  destruct (k <? 1) eqn:E1; simpl; [discriminate|].
  destruct (_ <? k) eqn:E2; [discriminate|].
  apply Z.ltb_ge in E1, E2. intros [= <- <-].
  repeat split.
  - rewrite length_firstn. lia.
  - now rewrite length_map, length_seq.
  - apply Forall_forall. intros l Hl. apply in_map_iff in Hl as (i & <- & _).
    apply Nat.mod_upper_bound. lia.
Qed.

(** C7 on five pixels and [k = 2]. *)
Lemma extract_palette_ranked_witness :
  exists p,
    ColorTransfer.extract_palette Sample.kmeans 0
      [(200, 30, 30); (30, 30, 200); (200, 30, 30); (30, 30, 200);
       (200, 30, 30)] 2 true true = Some p /\
    Z.of_nat (List.length (ColorTransfer.colors p)) <= 2 /\
    StronglySorted ColorTransfer.freq_ge
      (ColorTransfer.get_palette_details p) /\
    match ColorTransfer.palette_details p with
    | Some cs => ColorTransfer.colors p = map ColorTransfer.hex cs
    | None => List.length (ColorTransfer.colors p) = 1%nat
    end.
Proof.
  eexists. split; [vm_compute; reflexivity|].
  apply (extract_palette_ranked Sample.kmeans 0
           [(200, 30, 30); (30, 30, 200); (200, 30, 30); (30, 30, 200);
            (200, 30, 30)] 2 true true).
  - exact Sample_kmeans_contract.
  - vm_compute. reflexivity.
Defined.

(** C5 on four pixels and [k = 3]: a grey background, a grey second entry
    and a red third one, which is the accent. *)
Lemma extract_palette_roles_witness :
  exists p,
    ColorTransfer.extract_palette Sample.kmeans 0
      [(90, 90, 90); (120, 120, 120); (220, 40, 40); (90, 90, 90)]
      3 true true = Some p /\
    ColorTransfer.primary_background p = "#5a5a5a"%string /\
    ColorTransfer.accent p = Some "#dc2828"%string /\
    exists bg rest e,
      ColorTransfer.palette_details p = Some (bg :: rest) /\
      ColorTransfer.primary_background p = ColorTransfer.hex bg /\
      Forall (fun e => (ColorTransfer.frequency e
                        <= ColorTransfer.frequency bg)%Q) rest /\
      In e rest /\
      ColorTransfer.accent p = Some (ColorTransfer.hex e) /\
      Forall (fun e' => ColorTransfer.saturation (ColorTransfer.rgb e')
                        <= ColorTransfer.saturation (ColorTransfer.rgb e))
             rest.
Proof.
  eexists. split; [vm_compute; reflexivity|].
  split; [reflexivity|]. split; [reflexivity|].
  destruct (extract_palette_roles Sample.kmeans 0
              [(90, 90, 90); (120, 120, 120); (220, 40, 40); (90, 90, 90)]
              3 true true _ eq_refl eq_refl)
    as (bg & rest & Hd & Hp & Hf & Hacc).
  assert (Hrest : exists second third, rest = [second; third] /\
                    0 < ColorTransfer.saturation (ColorTransfer.rgb third)).
  { simpl in Hd. inversion Hd; subst. do 2 eexists.
    split; [reflexivity | vm_compute; reflexivity]. }
  destruct Hrest as (second & third & -> & Hpos).
  destruct Hacc as [_ Hsome].
  destruct Hsome as (e & Hin & Ha & Hmax).
  { apply Exists_cons_tl, Exists_cons_hd. exact Hpos. }
  exists bg, [second; third], e. repeat split; assumption.
Defined.

Section FallbackFacts.
Import ColorTransfer.
Local Open Scope Q_scope.

Lemma sum_of_bytes (zs : list Z) :
  Forall (fun z => (0 <= z <= 255)%Z) zs ->
  (0 <= fold_right Z.add 0%Z zs <= 255 * Z.of_nat (List.length zs))%Z.
Proof.
  induction 1 as [|z l Hz _ IH].
  - simpl. lia.
  - cbn [fold_right List.length]. rewrite Nat2Z.inj_succ. lia.
Qed.

(** While the running sum stays below [2^24] every partial sum is a
    [float32], and the column sum is exact. *)
Lemma np_sum32_exact (zs : list Z) (a : Z) (acc : Q) :
  acc == inject_Z a -> (0 <= a)%Z ->
  Forall (fun z => (0 <= z <= 255)%Z) zs ->
  (a + 255 * Z.of_nat (List.length zs) < 2 ^ 24)%Z ->
  fold_left (fun acc v => float32 (acc + v)) (map inject_Z zs) acc
  == inject_Z (a + fold_right Z.add 0%Z zs).
Proof.
  intros Ea Ha Hz. revert a acc Ea Ha.
  induction Hz as [|z l Hz Hl IH]; intros a acc Ea Ha Hs.
  - cbn [map fold_left fold_right]. now rewrite Z.add_0_r.
  - cbn [map fold_left fold_right]. cbn [List.length] in Hs.
    rewrite Nat2Z.inj_succ in Hs.
    pose proof (sum_of_bytes l Hl) as Hb.
    rewrite (IH (a + z)%Z).
    + now rewrite Z.add_assoc.
    + apply fp_round_int; [lia|]. rewrite Ea, inject_Z_plus. reflexivity.
    + lia.
    + lia.
Qed.

(** The truncated [float32] mean of fewer than 65536 8-bit values is the
    integer quotient of their sum by their number. *)
Lemma mean32_truncated (zs : list Z) :
  zs <> [] -> Forall (fun z => (0 <= z <= 255)%Z) zs ->
  (Z.of_nat (List.length zs) < 65536)%Z ->
  py_int (np_mean32 (map inject_Z zs))
  = (fold_right Z.add 0%Z zs / Z.of_nat (List.length zs))%Z.
Proof.
  intros Hne Hz Hlen. unfold np_mean32, np_sum32. rewrite length_map.
  pose proof (sum_of_bytes zs Hz) as Hb.
  assert (Hl : (0 < Z.of_nat (List.length zs))%Z).
  { destruct zs; [congruence | simpl; lia]. }
  apply (fp_quotient_truncated 24).
  - exact Hb.
  - change (2 ^ (24 - 8))%Z with 65536%Z. lia.
  - rewrite (np_sum32_exact zs 0%Z 0); [reflexivity | reflexivity | lia
                                      | exact Hz |].
    change (2 ^ 24)%Z with 16777216%Z. lia.
Qed.

Variable kmeans :
  list (triple Q) -> Z -> option (list (triple Q) * list nat).
Variable nan_as_int : Z.

(** With at least one pixel and fewer than [k] left after filtering, the
    result is the single colour of the truncated [float32] channel
    means. *)
Lemma extract_palette_fallback_mean (img : list (triple Z)) (k : Z)
    (exclude_near_white exclude_near_black : bool) :
  let pixels := filter_pixels exclude_near_white exclude_near_black
                  (map (map3 inject_Z) img) in
  pixels <> [] ->
  (Z.of_nat (List.length pixels) < k)%Z ->
  let avg := (py_int (np_mean32 (map (chan 0) pixels)),
              py_int (np_mean32 (map (chan 1) pixels)),
              py_int (np_mean32 (map (chan 2) pixels))) in
  extract_palette kmeans nan_as_int img k
    exclude_near_white exclude_near_black
  = Some (mkPalette [hex_color avg] None (hex_color avg) None).
Proof.
  intros pixels Hne Hlt avg. unfold extract_palette. fold pixels.
  apply Z.ltb_lt in Hlt. rewrite Hlt.
  unfold fallback_palette, mean_axis0.
  destruct pixels; [congruence | reflexivity].
Qed.

(** C1 where the code departs from it: a single pure-white pixel with
    both filters on and [k = 6].  No pixel is left, the channel means are
    [nan], and the one colour returned is whatever the integer cast makes
    of [nan] (the least 64-bit integer where numpy runs on x86-64), not a
    mean colour. *)
Theorem extract_palette_no_pixels_left :
  filter_pixels true true (map (map3 inject_Z) [(255, 255, 255)%Z]) = [] /\
  mean_axis0 [] = (nan, nan, nan) /\
  extract_palette kmeans nan_as_int [(255, 255, 255)%Z] 6 true true
  = Some (mkPalette
            [hex_color (nan_as_int, nan_as_int, nan_as_int)] None
            (hex_color (nan_as_int, nan_as_int, nan_as_int)) None) /\
  hex_color (- 2 ^ 63, - 2 ^ 63, - 2 ^ 63)%Z
  = "#-8000000000000000-8000000000000000-8000000000000000"%string.
Proof. repeat split. Qed.
End FallbackFacts.

(** ** Adjustment suggestions *)

Section SuggestFacts.
Import ColorTransfer.
Local Open Scope Q_scope.

Lemma clamp_spec (lo hi x y : Q) :
  lo <= hi -> y == x -> py_max lo (py_min hi y) == clamped lo hi x.
Proof.
  intros Hlh Hxy. unfold py_max, py_min, clamped.
  destruct (Qlt_bool y hi) eqn:E1;
    [apply Qlt_bool_iff in E1 | apply Qlt_bool_false_iff in E1].
  - destruct (Qlt_bool lo y) eqn:E2;
      [apply Qlt_bool_iff in E2 | apply Qlt_bool_false_iff in E2].
    + destruct (Qlt_bool x lo) eqn:E3;
        [apply Qlt_bool_iff in E3; lra | apply Qlt_bool_false_iff in E3].
      destruct (Qlt_bool hi x) eqn:E4;
        [apply Qlt_bool_iff in E4; lra | exact Hxy].
    + destruct (Qlt_bool x lo) eqn:E3;
        [reflexivity | apply Qlt_bool_false_iff in E3].
      destruct (Qlt_bool hi x) eqn:E4;
        [apply Qlt_bool_iff in E4; lra | lra].
  - destruct (Qlt_bool lo hi) eqn:E2;
      [apply Qlt_bool_iff in E2 | apply Qlt_bool_false_iff in E2].
    + destruct (Qlt_bool x lo) eqn:E3;
        [apply Qlt_bool_iff in E3; lra | apply Qlt_bool_false_iff in E3].
      destruct (Qlt_bool hi x) eqn:E4;
        [reflexivity | apply Qlt_bool_false_iff in E4; lra].
    + destruct (Qlt_bool x lo) eqn:E3;
        [reflexivity | apply Qlt_bool_false_iff in E3].
      destruct (Qlt_bool hi x) eqn:E4;
        [apply Qlt_bool_iff in E4; lra
        | apply Qlt_bool_false_iff in E4; lra].
Qed.

Lemma py_round_comp (x y : Q) (n : nat) :
  x == y -> py_round x n == py_round y n.
Proof.
  intro E. unfold py_round.
  set (s := inject_Z (10 ^ Z.of_nat n)).
  rewrite (round_half_even_comp (x * s) (y * s)); [reflexivity|].
  now rewrite E.
Qed.

(** On a whole-number lightness difference the two-decimal rounding is
    exact, so the brightness is [1 + d/100] clamped, or 1 in the
    deadband. *)
Lemma brightness_of_integer (d : Z) (l : Q) :
  l == inject_Z d ->
  brightness_of l ==
  if (Z.abs d <=? 10)%Z then 1
  else clamped (1 # 2) (3 # 2) (1 + inject_Z d / 100).
Proof.
  intro El. unfold brightness_of.
  assert (Ea : Qabs l == inject_Z (Z.abs d)).
  { rewrite El. reflexivity. }
  destruct (Z.abs d <=? 10)%Z eqn:E.
  - apply Z.leb_le in E.
    assert (H : Qlt_bool 10 (Qabs l) = false).
    { apply Qlt_bool_false_iff. rewrite Ea.
      change 10 with (inject_Z 10). now rewrite <- Zle_Qle. }
    rewrite H. reflexivity.
  - apply Z.leb_gt in E.
    assert (H : Qlt_bool 10 (Qabs l) = true).
    { apply Qlt_bool_iff. rewrite Ea.
      change 10 with (inject_Z 10). now rewrite <- Zlt_Qlt. }
    rewrite H. apply clamp_spec; [lra|].
    rewrite (py_round_comp _ (inject_Z (100 + d)
                              / inject_Z (10 ^ Z.of_nat 2))).
    + rewrite py_round_exact. rewrite inject_Z_plus.
      change (inject_Z (10 ^ Z.of_nat 2)) with 100.
      change (inject_Z 100) with 100. field.
    + rewrite El, inject_Z_plus.
      change (inject_Z (10 ^ Z.of_nat 2)) with 100.
      change (inject_Z 100) with 100. field.
Qed.

Lemma tone_of_integer (d : Z) (l : Q) :
  l == inject_Z d ->
  tone_of l =
  (if (d <? -10)%Z then "darker"
   else if (10 <? d)%Z then "lighter" else "neutral")%string.
Proof.
  intro El. unfold tone_of.
  assert (H1 : Qlt_bool l (-10) = (d <? -10)%Z).
  { destruct (d <? -10)%Z eqn:E.
    - apply Z.ltb_lt in E. apply Qlt_bool_iff. rewrite El.
      change (-10) with (inject_Z (-10)). now rewrite <- Zlt_Qlt.
    - apply Z.ltb_ge in E. apply Qlt_bool_false_iff. rewrite El.
      change (-10) with (inject_Z (-10)). now rewrite <- Zle_Qle. }
  assert (H2 : Qlt_bool 10 l = (10 <? d)%Z).
  { destruct (10 <? d)%Z eqn:E.
    - apply Z.ltb_lt in E. apply Qlt_bool_iff. rewrite El.
      change 10 with (inject_Z 10). now rewrite <- Zlt_Qlt.
    - apply Z.ltb_ge in E. apply Qlt_bool_false_iff. rewrite El.
      change 10 with (inject_Z 10). now rewrite <- Zle_Qle. }
  now rewrite H1, H2.
Qed.

Lemma as_uint8_valid (c : triple Z) : valid_rgb c -> as_uint8 c = Some c.
Proof.
  destruct c as [[r g] b]. simpl. intros (Hr & Hg & Hb).
  repeat match goal with
  | |- context [(?a <=? ?b)%Z] =>
      let E := fresh in
      destruct (a <=? b)%Z eqn:E; [|apply Z.leb_gt in E; lia]
  end.
  reflexivity.
Qed.

Variable cv_BGR2LAB : triple Z -> triple Z.
Variable np_std : list Q -> Q.
Variable str_float : Q -> string.

Lemma lab_of_rgb_valid (c : triple Z) :
  valid_rgb c ->
  lab_of_rgb cv_BGR2LAB c = Some (map3 inject_Z (cv_BGR2LAB (swap_rb c))).
Proof.
  intro H. unfold lab_of_rgb. now rewrite (as_uint8_valid c H).
Qed.

Lemma l_diff_integer (ref_bg gen_bg : triple Z) :
  chan 0 (map3 inject_Z (cv_BGR2LAB (swap_rb ref_bg)))
  - chan 0 (map3 inject_Z (cv_BGR2LAB (swap_rb gen_bg)))
  == inject_Z (delta_L cv_BGR2LAB ref_bg gen_bg).
Proof.
  unfold delta_L.
  destruct (cv_BGR2LAB (swap_rb ref_bg)) as [[l1 a1] b1].
  destruct (cv_BGR2LAB (swap_rb gen_bg)) as [[l2 a2] b2]. simpl.
  unfold Z.sub. rewrite inject_Z_plus, inject_Z_opp. reflexivity.
Qed.

Lemma suggest_evaluates (ref_palette gen_palette : Palette)
    (r g : PaletteEntry) (rs gs : list PaletteEntry) :
  get_palette_details ref_palette = r :: rs ->
  get_palette_details gen_palette = g :: gs ->
  valid_rgb (rgb r) -> valid_rgb (rgb g) ->
  exists l_diff css sat,
    l_diff == inject_Z (delta_L cv_BGR2LAB (rgb r) (rgb g)) /\
    suggest_color_adjustments cv_BGR2LAB np_std str_float
      ref_palette gen_palette
    = Some (Suggested (mkFilters (brightness_of l_diff) 1 sat) css
              (tone_of l_diff)).
Proof.
  intros Hr Hg Vr Vg. unfold suggest_color_adjustments.
  rewrite Hr, Hg, (lab_of_rgb_valid _ Vr), (lab_of_rgb_valid _ Vg).
  do 3 eexists. split; [apply l_diff_integer | reflexivity].
Qed.

(** C8, as the code has it: for two palettes that carry detailed entries,
    with [dL] the lightness of the reference background minus that of the
    generated one (the first channel of OpenCV's 8-bit LAB conversion of
    the colour in blue-green-red order), the suggested brightness is 1
    when [dL] is within 10 of zero and [1 + dL/100] clamped to the interval
    from 0.5 to 1.5 otherwise, and the tone is darker below -10, lighter
    above 10 and neutral in between.  A palette without detailed entries,
    empty or not, gets the no-data result: no brightness and no tone. *)
Theorem suggest_brightness_and_tone (ref_palette gen_palette : Palette) :
  (forall r rs g gs,
     get_palette_details ref_palette = r :: rs ->
     get_palette_details gen_palette = g :: gs ->
     valid_rgb (rgb r) -> valid_rgb (rgb g) ->
     let '(r1, g1, b1) := rgb r in
     let '(r2, g2, b2) := rgb g in
     let '(l1, _, _) := cv_BGR2LAB (b1, g1, r1) in
     let '(l2, _, _) := cv_BGR2LAB (b2, g2, r2) in
     let dL := (l1 - l2)%Z in
     exists filters css tone,
       suggest_color_adjustments cv_BGR2LAB np_std str_float
         ref_palette gen_palette = Some (Suggested filters css tone) /\
       brightness filters ==
         (if (Z.abs dL <=? 10)%Z then 1
          else clamped (1 # 2) (3 # 2) (1 + inject_Z dL / 100)) /\
       tone =
         (if (dL <? -10)%Z then "darker"
          else if (10 <? dL)%Z then "lighter" else "neutral")%string) /\
  (palette_details ref_palette = None \/ palette_details gen_palette = None
   \/ palette_details ref_palette = Some []
   \/ palette_details gen_palette = Some [] ->
   suggest_color_adjustments cv_BGR2LAB np_std str_float
     ref_palette gen_palette = Some (NoData "No palette data available")).
Proof.
  split.
  - intros r rs g gs Hr Hg Vr Vg.
    destruct (suggest_evaluates _ _ _ _ _ _ Hr Hg Vr Vg)
      as (l & css & sat & El & H).
    unfold delta_L in El.
    destruct (rgb r) as [[r1 g1] b1]. destruct (rgb g) as [[r2 g2] b2].
    cbn [swap_rb] in El.
    destruct (cv_BGR2LAB (b1, g1, r1)) as [[l1 a1] c1].
    destruct (cv_BGR2LAB (b2, g2, r2)) as [[l2 a2] c2].
    cbn [chan] in El.
    exists (mkFilters (brightness_of l) 1 sat), css, (tone_of l).
    split; [exact H|]. cbn [brightness]. split.
    + now apply brightness_of_integer.
    + now apply tone_of_integer.
  - intro H. unfold suggest_color_adjustments, get_palette_details.
    destruct H as [H|[H|[H|H]]]; rewrite H; try reflexivity;
      destruct (palette_details ref_palette) as [[|? ?]|]; reflexivity.
Qed.

(** C3, as the code has it: the no-data result is returned exactly when
    one of the two dictionaries has no ["palette_details"] entries (the
    key absent or the list empty); two palettes with detailed entries
    whose background colours are 8-bit triples get a suggestion; and the
    mean-colour fallback palette carries no ["palette_details"]. *)
Theorem suggest_no_data_iff (ref_palette gen_palette : Palette) :
  ((exists e, suggest_color_adjustments cv_BGR2LAB np_std str_float
                ref_palette gen_palette = Some (NoData e))
   <-> (get_palette_details ref_palette = []
        \/ get_palette_details gen_palette = [])) /\
  (forall r rs g gs,
     get_palette_details ref_palette = r :: rs ->
     get_palette_details gen_palette = g :: gs ->
     valid_rgb (rgb r) -> valid_rgb (rgb g) ->
     exists filters css tone,
       suggest_color_adjustments cv_BGR2LAB np_std str_float
         ref_palette gen_palette = Some (Suggested filters css tone)) /\
  (forall nan_as_int pixels,
     get_palette_details (fallback_palette nan_as_int pixels) = []).
Proof.
  split; [|split].
  - unfold suggest_color_adjustments. split.
    + intros [e H].
      destruct (get_palette_details ref_palette) as [|r rs]; [now left|].
      destruct (get_palette_details gen_palette) as [|g gs]; [now right|].
      destruct (lab_of_rgb _ (rgb r)); [|discriminate].
      destruct (lab_of_rgb _ (rgb g)); discriminate.
    + intros [H|H]; rewrite H.
      * eexists. reflexivity.
      * destruct (get_palette_details ref_palette); eexists; reflexivity.
  - intros r rs g gs Hr Hg Vr Vg.
    destruct (suggest_evaluates _ _ _ _ _ _ Hr Hg Vr Vg)
      as (l & css & sat & _ & H).
    do 3 eexists. exact H.
  - reflexivity.
Qed.
End SuggestFacts.

(** C8 on an orange reference background and a blue generated one, with a
    lightness that weighs red twice as much as blue: the difference is
    [112 - 87 = 25], the brightness 1.25 and the tone lighter. *)
Lemma suggest_brightness_and_tone_witness :
  let ref_palette :=
    ColorTransfer.mkPalette ["#c86400"%string]
      (Some [ColorTransfer.mkEntry "#c86400" (200, 100, 0) 1])
      "#c86400" (Some "#c86400"%string) in
  let gen_palette :=
    ColorTransfer.mkPalette ["#0064c8"%string]
      (Some [ColorTransfer.mkEntry "#0064c8" (0, 100, 200) 1])
      "#0064c8" (Some "#0064c8"%string) in
  exists filters css tone,
    ColorTransfer.suggest_color_adjustments
      Sample.luma_lab Sample.spread Sample.str_float ref_palette gen_palette
    = Some (ColorTransfer.Suggested filters css tone) /\
    (ColorTransfer.brightness filters == 5 # 4)%Q /\
    tone = "lighter"%string.
Proof.
  intros ref_palette gen_palette.
  destruct (suggest_brightness_and_tone
              Sample.luma_lab Sample.spread Sample.str_float
              ref_palette gen_palette) as [H _].
  specialize (H _ [] _ [] eq_refl eq_refl).
  cbn [ColorTransfer.rgb] in H.
  destruct H as (f & css & tone & H & Hb & Ht).
  - simpl. lia.
  - simpl. lia.
  - exists f, css, tone. split; [exact H|].
    split; [rewrite Hb; reflexivity | exact Ht].
Defined.

(** C3 on the same two palettes: both carry a detailed entry and a
    suggestion is returned. *)
Lemma suggest_no_data_iff_witness :
  let ref_palette :=
    ColorTransfer.mkPalette ["#c8c8c8"%string]
      (Some [ColorTransfer.mkEntry "#c8c8c8" (200, 200, 200) 1])
      "#c8c8c8" (Some "#c8c8c8"%string) in
  let gen_palette :=
    ColorTransfer.mkPalette ["#646464"%string]
      (Some [ColorTransfer.mkEntry "#646464" (100, 100, 100) 1])
      "#646464" (Some "#646464"%string) in
  exists filters css tone,
    ColorTransfer.suggest_color_adjustments
      Sample.bgr2lab Sample.spread Sample.str_float ref_palette gen_palette
    = Some (ColorTransfer.Suggested filters css tone).
Proof.
  intros ref_palette gen_palette.
  destruct (suggest_no_data_iff Sample.bgr2lab Sample.spread Sample.str_float
              ref_palette gen_palette) as (_ & H & _).
  apply (H _ [] _ [] eq_refl eq_refl); simpl; lia.
Defined.

(** C3 as stated fails: the palette [extract_palette] returns for a
    one-pixel grey image (the mean-colour fallback, one colour) is given
    twice to [suggest_color_adjustments], which answers with the no-data
    result. *)
Lemma suggest_rejects_fallback_palette :
  exists p,
    ColorTransfer.extract_palette Sample.kmeans 0 [(100, 100, 100)] 6
      true true = Some p /\
    ColorTransfer.colors p = ["#646464"%string] /\
    ColorTransfer.suggest_color_adjustments
      Sample.bgr2lab Sample.spread Sample.str_float p p
    = Some (ColorTransfer.NoData "No palette data available").
Proof.
  eexists. split; [vm_compute; reflexivity|].
  split; reflexivity.
Qed.

(** C8 as stated fails: the palettes [extract_palette] returns for a
    one-pixel light grey image and a one-pixel dark grey image are not
    empty, and the lightness of the two colours differs by 100, for which
    the claim gives a brightness of 1.5 and the tone lighter; they carry
    no detailed entries, and the answer is the no-data result, without
    brightness or tone. *)
Lemma suggest_no_brightness_for_fallback :
  exists p q,
    ColorTransfer.extract_palette Sample.kmeans 0 [(200, 200, 200)] 6
      true true = Some p /\
    ColorTransfer.extract_palette Sample.kmeans 0 [(100, 100, 100)] 6
      true true = Some q /\
    ColorTransfer.colors p = ["#c8c8c8"%string] /\
    ColorTransfer.colors q = ["#646464"%string] /\
    ColorTransfer.chan 0 (Sample.bgr2lab (200, 200, 200))
    - ColorTransfer.chan 0 (Sample.bgr2lab (100, 100, 100)) = 100 /\
    ColorTransfer.suggest_color_adjustments
      Sample.bgr2lab Sample.spread Sample.str_float p q
    = Some (ColorTransfer.NoData "No palette data available") /\
    forall filters css tone,
      ColorTransfer.suggest_color_adjustments
        Sample.bgr2lab Sample.spread Sample.str_float p q
      <> Some (ColorTransfer.Suggested filters css tone).
Proof.
  do 2 eexists.
  split; [vm_compute; reflexivity|].
  split; [vm_compute; reflexivity|].
  repeat split. discriminate.
Qed.

(** ** Reinhard transfer *)

Section ReinhardFacts.
Import ColorTransfer.
Local Open Scope Q_scope.

Lemma assign_channel_map (i : nat) (f : Q -> Q)
    (g : triple Q -> triple Q) (src : list (triple Q)) :
  assign_channel i (map f (channel i src)) (map g src)
  = map (fun p => set_chan i (f (chan i p)) (g p)) src.
Proof.
  unfold assign_channel, channel.
  induction src as [|p src IH]; simpl; [reflexivity|]. now rewrite IH.
Qed.

(** The channel loop over whole arrays is a loop over the channels of
    each pixel. *)
Lemma channel_loop_pointwise (f : nat -> Q -> Q) (chans : list nat)
    (g : triple Q -> triple Q) (src : list (triple Q)) :
  fold_left
    (fun res i => assign_channel i (map (f i) (channel i src)) res)
    chans (map g src)
  = map (fun p =>
           fold_left (fun r i => set_chan i (f i (chan i p)) r) chans (g p))
        src.
Proof.
  revert g. induction chans as [|i chans IH]; intro g; simpl.
  - reflexivity.
  - rewrite assign_channel_map.
    apply (IH (fun p => set_chan i (f i (chan i p)) (g p))).
Qed.



Variable cv_BGR2LAB : triple Z -> triple Z.
Variable cv_LAB2BGR : triple Z -> triple Z.
Variable np_std : list Q -> Q.


End ReinhardFacts.


(** ** Structural similarity *)

Section SsimFacts.
Import ColorTransfer.
Local Open Scope Q_scope.

Lemma Qfloor_unique (x : Q) (z : Z) :
  inject_Z z <= x -> x < inject_Z (z + 1) -> Qfloor x = z.
Proof.
  intros Hl Hu.
  assert (H1 : (z <= Qfloor x)%Z).
  { rewrite <- (Qfloor_Z z). now apply Qfloor_resp_le. }
  assert (H2 : (Qfloor x < z + 1)%Z).
  { rewrite Zlt_Qlt. eapply Qle_lt_trans; [apply Qfloor_le | exact Hu]. }
  lia.
Qed.

(** Scores from 0.93995 up to, and not including, 0.94 are reported as
    0.94. *)
Lemma py_round_just_below_threshold (score : Q) :
  93995 # 100000 <= score -> score < 94 # 100 ->
  py_round score 4 == 94 # 100.
Proof.
  intros Hl Hu. unfold py_round.
  change (inject_Z (10 ^ Z.of_nat 4)) with 10000.
  assert (Hf : Qfloor (score * 10000) = 9399%Z).
  { apply Qfloor_unique.
    - change (inject_Z 9399) with 9399. lra.
    - change (inject_Z (9399 + 1)) with 9400. lra. }
  assert (R : round_half_even (score * 10000) = 9400%Z).
  { unfold round_half_even. rewrite Hf.
    change (inject_Z 9399) with 9399.
    destruct (score * 10000 - 9399 ?= 1 # 2) eqn:C; try reflexivity.
    apply Qlt_alt in C. lra. }
  rewrite R. reflexivity.
Qed.

Lemma ssim_report_fields (score : Q) (regions : list DiffRegion) :
  ssim (ssim_report score regions) = py_round score 4 /\
  (passed (ssim_report score regions) = true <-> 94 # 100 <= score) /\
  (93995 # 100000 <= score < 94 # 100 ->
   ssim (ssim_report score regions) == 94 # 100 /\
   passed (ssim_report score regions) = false).
Proof.
  simpl. repeat split.
  - apply Qle_bool_iff.
  - apply Qle_bool_iff.
  - now apply py_round_just_below_threshold.
  - destruct (Qle_bool (94 # 100) score) eqn:E; [|reflexivity].
    apply Qle_bool_iff in E. lra.
Qed.

Lemma shape_map_image {A B} (f : A -> B) (img : image A) :
  shape (map_image f img) = shape img.
Proof.
  unfold shape, map_image. rewrite length_map.
  destruct img; simpl; [reflexivity | now rewrite length_map].
Qed.

Lemma map_image_compose {A B C} (f : A -> B) (g : B -> C) (img : image A) :
  map_image g (map_image f img) = map_image (fun v => g (f v)) img.
Proof.
  unfold map_image. rewrite map_map. apply map_ext. intro row.
  apply map_map.
Qed.

Lemma map_image_zero {A} (img : image A) :
  Forall (Forall (fun v => v = 0%Z)) (map_image (fun _ => 0%Z) img).
Proof.
  unfold map_image. apply Forall_forall. intros row Hrow.
  apply in_map_iff in Hrow as (r & <- & _).
  apply Forall_forall. intros v Hv. now apply in_map_iff in Hv as (_ & <- & _).
Qed.

Variable HAS_SKIMAGE : bool.
Variable cv_resize : image (triple Z) -> nat * nat -> image (triple Z).
Variable cv_RGB2GRAY : triple Z -> Z.
Variable ssim_windows : image Z -> image Z -> Q * image Q.
Variable contour : Type.
Variable findContours : image Z -> list contour.
Variable boundingRect : contour -> Z * Z * Z * Z.
Variable contourArea : contour -> Q.

Lemma same_shape_identical (img : image (triple Z)) :
  same_shape cv_resize img img = (img, img).
Proof. unfold same_shape. now rewrite !Nat.eqb_refl. Qed.

(** C10: the report of a comparison carries the score rounded to four
    decimals while [passed] tests the score itself against 0.94, so a
    score from 0.93995 up to 0.94 is reported as 0.94 and not passed. *)
Theorem compute_ssim_passed_on_raw_score (img1 img2 : image (triple Z))
    (report : SsimReport) :
  compute_ssim HAS_SKIMAGE cv_resize cv_RGB2GRAY ssim_windows contour
    findContours boundingRect contourArea img1 img2
  = Some (SsimOk report) ->
  let score :=
    fst (ssim_windows
           (map_image cv_RGB2GRAY (fst (same_shape cv_resize img1 img2)))
           (map_image cv_RGB2GRAY (snd (same_shape cv_resize img1 img2)))) in
  ssim report = py_round score 4 /\
  (passed report = true <-> 94 # 100 <= score) /\
  (93995 # 100000 <= score < 94 # 100 ->
   ssim report == 94 # 100 /\ passed report = false).
Proof.
  unfold compute_ssim. destruct HAS_SKIMAGE; simpl; [|discriminate].
  destruct (same_shape cv_resize img1 img2) as [a b]. simpl.
  unfold structural_similarity.
  destruct (shape (map_image cv_RGB2GRAY a)) as [rows cols].
  destruct (_ || _); [discriminate|].
  destruct (ssim_windows _ _) as [score diff_map]. simpl.
  intros [= <-]. apply ssim_report_fields.
Qed.

(** C6, as the code has it: with scikit-image present, an image of at
    least 7 x 7 pixels compared with itself gives score 1, no difference
    region, the bucket "excellent" and [passed = True] (the library
    scoring identical windows 1 and finding no contour in an empty
    mask). *)
Theorem compute_ssim_identical (img : image (triple Z)) :
  HAS_SKIMAGE = true ->
  (win_size <= fst (shape img))%nat ->
  (win_size <= snd (shape img))%nat ->
  perfect_on_identical ssim_windows ->
  no_contour_in_empty_mask findContours ->
  exists report,
    compute_ssim HAS_SKIMAGE cv_resize cv_RGB2GRAY ssim_windows contour
      findContours boundingRect contourArea img img
    = Some (SsimOk report) /\
    ssim report == 1 /\
    passed report = true /\
    difference_regions report = [] /\
    analysis report = "excellent"%string.
Proof.
  intros Hsk Hrows Hcols Hperfect Hempty.
  unfold compute_ssim. rewrite Hsk, same_shape_identical. simpl negb.
  unfold structural_similarity.
  rewrite shape_map_image. destruct (shape img) as [rows cols].
  simpl in Hrows, Hcols.
  apply Nat.ltb_ge in Hrows, Hcols. rewrite Hrows, Hcols. simpl orb.
  rewrite Hperfect. rewrite !map_image_compose.
  rewrite (Hempty _ (map_image_zero _)). simpl.
  eexists. split; [reflexivity|]. repeat split.
Qed.
End SsimFacts.

Lemma Sample_ssim_perfect_on_identical :
  ColorTransfer.perfect_on_identical Sample.ssim_windows.
Proof.
  intro g. unfold Sample.ssim_windows.
  destruct (list_eq_dec (list_eq_dec Z.eq_dec) g g); [reflexivity | congruence].
Qed.

Lemma Sample_no_contour_in_empty_mask :
  ColorTransfer.no_contour_in_empty_mask Sample.findContours.
Proof.
  intros mask H. unfold Sample.findContours.
  induction H as [|row mask Hrow _ IH]; simpl; [reflexivity|].
  rewrite IH.
  assert (E : existsb (fun v => negb (v =? 0)) row = false).
  { induction Hrow as [|v row Hv _ IHr]; simpl; [reflexivity|].
    now rewrite Hv, IHr. }
  now rewrite E.
Qed.

(** C6 on a grey 7 x 7 image. *)
Lemma compute_ssim_identical_witness :
  exists report,
    ColorTransfer.compute_ssim true Sample.cv_resize Sample.rgb2gray
      Sample.ssim_windows (list (Z * Z)) Sample.findContours
      Sample.boundingRect Sample.contourArea
      (Sample.grey_image 7 7 128) (Sample.grey_image 7 7 128)
    = Some (ColorTransfer.SsimOk report) /\
    (ColorTransfer.ssim report == 1)%Q /\
    ColorTransfer.passed report = true /\
    ColorTransfer.difference_regions report = [] /\
    ColorTransfer.analysis report = "excellent"%string.
Proof.
  apply (compute_ssim_identical true Sample.cv_resize Sample.rgb2gray
           Sample.ssim_windows (list (Z * Z)) Sample.findContours
           Sample.boundingRect Sample.contourArea
           (Sample.grey_image 7 7 128)).
  - reflexivity.
  - vm_compute. lia.
  - vm_compute. lia.
  - exact Sample_ssim_perfect_on_identical.
  - exact Sample_no_contour_in_empty_mask.
Defined.

(** C6 as stated fails: with scikit-image present, a one-pixel image
    compared with itself yields no report at all, the 7 x 7 window being
    larger than the image. *)
Lemma compute_ssim_small_image_raises :
  ColorTransfer.compute_ssim true Sample.cv_resize Sample.rgb2gray
    Sample.ssim_windows (list (Z * Z)) Sample.findContours
    Sample.boundingRect Sample.contourArea
    (Sample.grey_image 1 1 128) (Sample.grey_image 1 1 128)
  = None.
Proof. reflexivity. Qed.

(** C10 on a 7 x 7 image and a similarity statistic of 0.93999: the
    report shows 0.94 and does not pass. *)
Lemma compute_ssim_passed_on_raw_score_witness :
  exists report,
    ColorTransfer.compute_ssim true Sample.cv_resize Sample.rgb2gray
      Sample.ssim_near_threshold (list (Z * Z)) Sample.findContours
      Sample.boundingRect Sample.contourArea
      (Sample.grey_image 7 7 128) (Sample.grey_image 7 7 128)
    = Some (ColorTransfer.SsimOk report) /\
    (ColorTransfer.ssim report == 94 # 100)%Q /\
    ColorTransfer.passed report = false.
Proof.
  eexists. split; [vm_compute; reflexivity|].
  refine (proj2 (proj2 (compute_ssim_passed_on_raw_score
                          true Sample.cv_resize Sample.rgb2gray
                          Sample.ssim_near_threshold (list (Z * Z))
                          Sample.findContours Sample.boundingRect
                          Sample.contourArea
                          (Sample.grey_image 7 7 128)
                          (Sample.grey_image 7 7 128) _ eq_refl)) _).
  vm_compute. split; [discriminate | reflexivity].
Defined.

(** ** Colour space: what the wrappers add to OpenCV *)

Section ColorSpaceFacts.
Import ColorTransfer.
Variable cv_BGR2LAB : triple Z -> triple Z.
Variable cv_LAB2BGR : triple Z -> triple Z.

Lemma clip_uint8_inject_Z (z : Z) :
  0 <= z <= 255 -> clip_uint8 (inject_Z z) = z.
Proof.
  intros [H0 H1]. unfold clip_uint8.
  assert (E0 : Qlt_bool (inject_Z z) 0 = false).
  { apply Qlt_bool_false_iff. change 0%Q with (inject_Z 0).
    now rewrite <- Zle_Qle. }
  assert (E1 : Qlt_bool 255 (inject_Z z) = false).
  { apply Qlt_bool_false_iff. change 255%Q with (inject_Z 255).
    now rewrite <- Zle_Qle. }
  rewrite E0, E1. apply py_int_inject_Z.
Qed.

(** On 8-bit LAB values the float conversion, the clip and the cast
    cancel: a round trip through [rgb_to_lab] and [lab_to_rgb] is
    OpenCV's two conversions between the channel exchanges, and nothing
    else. *)
Lemma round_trip_is_opencv (img : list (triple Z)) :
  (forall p, valid_rgb (cv_BGR2LAB p)) ->
  lab_to_rgb cv_LAB2BGR (rgb_to_lab cv_BGR2LAB (Img3 img))
  = map (fun p => swap_rb (cv_LAB2BGR (cv_BGR2LAB (swap_rb p)))) img.
Proof.
  intro Hrange. unfold lab_to_rgb, rgb_to_lab. rewrite !map_map.
  apply map_ext. intro p. do 2 f_equal.
  specialize (Hrange (swap_rb p)).
  destruct (cv_BGR2LAB (swap_rb p)) as [[l a] b].
  destruct Hrange as (Hl & Ha & Hb). simpl.
  now rewrite !clip_uint8_inject_Z.
Qed.
End ColorSpaceFacts.

(** * Further properties of the tools *)

(** ** Auto-crop bounds *)

Section CropFacts.
Import Preprocess.

Lemma below_half (a b : Z) :
  Qlt_bool (inject_Z a) (inject_Z b * (1 # 2)) = (2 * a <? b).
Proof.
  destruct (2 * a <? b) eqn:E.
  - apply Z.ltb_lt in E. apply Qlt_bool_iff.
    assert (H : (inject_Z (2 * a) < inject_Z b)%Q) by now rewrite <- Zlt_Qlt.
    rewrite inject_Z_mult in H. change (inject_Z 2) with 2%Q in H. lra.
  - apply Z.ltb_ge in E. apply Qlt_bool_false_iff.
    assert (H : (inject_Z b <= inject_Z (2 * a))%Q) by now rewrite <- Zle_Qle.
    rewrite inject_Z_mult in H. change (inject_Z 2) with 2%Q in H. lra.
Qed.

Lemma content_box_inside (w h margin : Z) (found : option (Z * Z * Z * Z)) :
  0 <= w -> 0 <= h ->
  let '(x, y, bw, bh) := detect_content_bounds w h found margin in
  0 <= x /\ 0 <= y /\ x + bw <= w /\ y + bh <= h /\
  w <= 2 * bw /\ h <= 2 * bh.
Proof.
  intros Hw Hh. unfold detect_content_bounds.
  destruct found as [[[[x0 y0] bw0] bh0]|]; [|lia].
  rewrite !below_half.
  destruct (2 * Z.min (w - Z.max 0 (x0 - margin)) (bw0 + 2 * margin) <? w)
    eqn:Ex;
    destruct (2 * Z.min (h - Z.max 0 (y0 - margin)) (bh0 + 2 * margin) <? h)
      eqn:Ey;
    try apply Z.ltb_ge in Ex; try apply Z.ltb_ge in Ey; lia.
Qed.

(** X1: The box [detect_content_bounds] returns lies inside the image and is
    at least half as wide and half as high as the image, whatever OpenCV
    found and whatever the margin. *)
Theorem detect_content_bounds_inside (w h margin : Z)
    (found : option (Z * Z * Z * Z)) :
  0 <= w -> 0 <= h ->
  let '(x, y, bw, bh) := detect_content_bounds w h found margin in
  0 <= x /\ 0 <= y /\ x + bw <= w /\ y + bh <= h /\
  w <= 2 * bw /\ h <= 2 * bh.
Proof. apply content_box_inside. Qed.

(** X2: With a non-negative margin, a rectangle found inside the image is
    contained in the box returned. *)
Theorem detect_content_bounds_contains (w h margin x0 y0 bw0 bh0 : Z) :
  0 <= margin ->
  0 <= x0 -> 0 <= y0 -> 0 <= bw0 -> 0 <= bh0 ->
  x0 + bw0 <= w -> y0 + bh0 <= h ->
  let '(x, y, bw, bh) :=
    detect_content_bounds w h (Some (x0, y0, bw0, bh0)) margin in
  x <= x0 /\ y <= y0 /\ x0 + bw0 <= x + bw /\ y0 + bh0 <= y + bh.
Proof.
  intros Hm Hx Hy Hbw Hbh Hxw Hyh. unfold detect_content_bounds.
  rewrite !below_half.
  destruct (2 * Z.min (w - Z.max 0 (x0 - margin)) (bw0 + 2 * margin) <? w);
    destruct (2 * Z.min (h - Z.max 0 (y0 - margin)) (bh0 + 2 * margin) <? h);
    lia.
Qed.

Lemma auto_crop_content_size (img : Image) (found : option (Z * Z * Z * Z)) :
  1 <= width img -> 1 <= height img ->
  1 <= width (auto_crop_content img found) <= width img /\
  1 <= height (auto_crop_content img found) <= height img /\
  width img <= 2 * width (auto_crop_content img found) /\
  height img <= 2 * height (auto_crop_content img found).
Proof.
  intros Hw Hh. unfold auto_crop_content.
  pose proof (content_box_inside (width img) (height img)
                (crop_margin img) found ltac:(lia) ltac:(lia)) as H.
  destruct (detect_content_bounds _ _ _ _) as [[[x y] bw] bh].
  cbn [width height]. lia.
Qed.
End CropFacts.

(** X3: Auto-crop keeps at least half of each side of a non-empty image and
    never enlarges it, so the crop is never empty; every image that
    normalization then returns has exactly the target width, and its
    height is within one below [floor(h*W/w)] for the crop's [w] and [h]
    (sizes with [h * W < 2^51]). *)
Theorem auto_crop_then_resize (find : Preprocess.Image -> option (Z * Z * Z * Z))
    (decoded : Preprocess.Image) (target : Z) :
  1 <= Preprocess.width decoded -> 1 <= Preprocess.height decoded ->
  let cropped := Preprocess.auto_crop_content decoded (find decoded) in
  1 <= Preprocess.width cropped <= Preprocess.width decoded /\
  1 <= Preprocess.height cropped <= Preprocess.height decoded /\
  Preprocess.width decoded <= 2 * Preprocess.width cropped /\
  Preprocess.height decoded <= 2 * Preprocess.height cropped /\
  forall out,
    Preprocess.load_and_normalize
      (fun img => Preprocess.auto_crop_content img (find img))
      decoded target true = Some out ->
    Preprocess.width out = target /\
    (0 < target -> Preprocess.height decoded * target < 2 ^ 51 ->
     Preprocess.height cropped * target / Preprocess.width cropped - 1
     <= Preprocess.height out
     <= Preprocess.height cropped * target / Preprocess.width cropped).
Proof.
  intros Hw Hh cropped.
  pose proof (auto_crop_content_size decoded (find decoded) Hw Hh)
    as (H1 & H2 & H3 & H4).
  fold cropped in H1, H2, H3, H4.
  split; [exact H1|]. split; [exact H2|]. split; [exact H3|].
  split; [exact H4|].
  intros out Hout. unfold Preprocess.load_and_normalize in Hout.
  fold cropped in Hout.
  apply resize_to_width_size in Hout; [|lia|lia].
  destruct Hout as (Ew & _ & Hb). split; [exact Ew|].
  intros Ht Hs. apply Hb; [exact Ht|].
  change (2 ^ 51) with 2251799813685248 in *. nia.
Qed.

(** A 100 x 80 image where OpenCV found a 20 x 70 rectangle at (10, 10),
    margin 2: the width falls below half and the full width is kept. *)
Lemma detect_content_bounds_inside_witness :
  Preprocess.detect_content_bounds 100 80 (Some (10, 10, 20, 70)) 2
  = (0, 8, 100, 72) /\
  let '(x, y, bw, bh) :=
    Preprocess.detect_content_bounds 100 80 (Some (10, 10, 20, 70)) 2 in
  0 <= x /\ 0 <= y /\ x + bw <= 100 /\ y + bh <= 80 /\
  100 <= 2 * bw /\ 80 <= 2 * bh.
Proof.
  split; [reflexivity|].
  apply (detect_content_bounds_inside 100 80 2 (Some (10, 10, 20, 70))); lia.
Defined.

Lemma detect_content_bounds_contains_witness :
  let '(x, y, bw, bh) :=
    Preprocess.detect_content_bounds 100 80 (Some (10, 10, 60, 70)) 2 in
  x <= 10 /\ y <= 10 /\ 10 + 60 <= x + bw /\ 10 + 70 <= y + bh.
Proof.
  apply (detect_content_bounds_contains 100 80 2 10 10 60 70); lia.
Defined.

Lemma auto_crop_then_resize_witness :
  let find := fun _ : Preprocess.Image => Some (10, 10, 60, 70) in
  let decoded := Preprocess.mkImage 100 80 in
  Preprocess.auto_crop_content decoded (find decoded)
  = Preprocess.mkImage 62 71 /\
  exists out,
    Preprocess.load_and_normalize
      (fun img => Preprocess.auto_crop_content img (find img))
      decoded 32 true = Some out /\
    Preprocess.width out = 32 /\ 35 <= Preprocess.height out <= 36.
Proof.
  intros find decoded. split; [vm_compute; reflexivity|].
  assert (E : Preprocess.load_and_normalize
                (fun img => Preprocess.auto_crop_content img (find img))
                decoded 32 true = Some (Preprocess.mkImage 32 36))
    by (vm_compute; reflexivity).
  exists (Preprocess.mkImage 32 36). split; [exact E|].
  destruct (auto_crop_then_resize find decoded 32) as (_ & _ & _ & _ & Hout);
    [simpl; lia | simpl; lia |].
  destruct (Hout (Preprocess.mkImage 32 36) E) as [Hw Hb].
  split; [exact Hw|].
  assert (Ec : Preprocess.auto_crop_content decoded (find decoded)
               = Preprocess.mkImage 62 71) by (vm_compute; reflexivity).
  rewrite Ec in Hb. apply Hb; [lia | vm_compute; reflexivity].
Defined.

(** ** Palette extraction: filters, frequencies, fallback colour *)

Section FilterFacts.
Import ColorTransfer.

Lemma Qlt_bool_inject_Z (a b : Z) :
  Qlt_bool (inject_Z a) (inject_Z b) = (a <? b).
Proof.
  destruct (a <? b) eqn:E.
  - apply Z.ltb_lt in E. apply Qlt_bool_iff. now rewrite <- Zlt_Qlt.
  - apply Z.ltb_ge in E. apply Qlt_bool_false_iff. now rewrite <- Zle_Qle.
Qed.

Lemma filter_map_commute {A B} (f : B -> bool) (g : A -> B) (l : list A) :
  filter f (map g l) = map g (filter (fun a => f (g a)) l).
Proof.
  induction l as [|a l IH]; simpl; [reflexivity|].
  destruct (f (g a)); simpl; now rewrite IH.
Qed.

Lemma filter_filter {A} (f g : A -> bool) (l : list A) :
  filter g (filter f l) = filter (fun a => f a && g a) l.
Proof.
  induction l as [|a l IH]; simpl; [reflexivity|].
  destruct (f a); simpl; [destruct (g a); now rewrite IH | exact IH].
Qed.

(** The two filters, which the code applies to the float copy of the
    pixels, select by the 8-bit values. *)
Lemma filter_pixels_kept (exclude_near_white exclude_near_black : bool)
    (img : list (triple Z)) :
  filter_pixels exclude_near_white exclude_near_black
    (map (map3 inject_Z) img)
  = map (map3 inject_Z)
      (filter (kept exclude_near_white exclude_near_black) img).
Proof.
  unfold filter_pixels.
  assert (Hw : forall p, all_below 250 (map3 inject_Z p)
                         = let '(r, g, b) := p in
                           (r <? 250) && (g <? 250) && (b <? 250)).
  { intros [[r g] b]. simpl. change 250%Q with (inject_Z 250).
    now rewrite !Qlt_bool_inject_Z. }
  assert (Hb : forall p, all_above 5 (map3 inject_Z p)
                         = let '(r, g, b) := p in
                           (5 <? r) && (5 <? g) && (5 <? b)).
  { intros [[r g] b]. simpl. change 5%Q with (inject_Z 5).
    now rewrite !Qlt_bool_inject_Z. }
  destruct exclude_near_white, exclude_near_black;
    rewrite ?filter_map_commute, ?filter_filter; f_equal;
    try (apply filter_ext; intros [[r g] b];
         rewrite ?Hw, ?Hb; simpl; now rewrite ?andb_true_r).
  symmetry. clear. induction img as [|[[r g] b] l IH]; simpl; congruence.
Qed.

Lemma map3_inject_Z_inj (p q : triple Z) :
  map3 inject_Z p = map3 inject_Z q -> p = q.
Proof.
  destruct p as [[a b] c], q as [[d e] f]. simpl. intros [= -> -> ->].
  reflexivity.
Qed.

(** X4: A pixel survives the filters exactly when, for each filter that is
    on, every one of its channels is on the right side: all three below
    250 for the white filter, all three above 5 for the black one.  One
    channel at 250 or more, or at 5 or less, is enough to drop it. *)
Theorem filter_pixels_membership
    (exclude_near_white exclude_near_black : bool)
    (img : list (triple Z)) (r g b : Z) :
  In (map3 inject_Z (r, g, b))
     (filter_pixels exclude_near_white exclude_near_black
        (map (map3 inject_Z) img))
  <-> In (r, g, b) img /\
      (exclude_near_white = true -> r < 250 /\ g < 250 /\ b < 250) /\
      (exclude_near_black = true -> 5 < r /\ 5 < g /\ 5 < b).
Proof.
  rewrite filter_pixels_kept. split.
  - intro H. apply in_map_iff in H as (q & Hq & Hin).
    apply map3_inject_Z_inj in Hq. subst q.
    apply filter_In in Hin as [Hin Hk]. split; [exact Hin|].
    unfold kept in Hk. apply andb_true_iff in Hk as [Hw Hb].
    split; intros ->; simpl in *.
    + apply andb_true_iff in Hw as [Hw H3].
      apply andb_true_iff in Hw as [H1 H2].
      apply Z.ltb_lt in H1, H2, H3. auto.
    + apply andb_true_iff in Hb as [Hb H3].
      apply andb_true_iff in Hb as [H1 H2].
      apply Z.ltb_lt in H1, H2, H3. auto.
  - intros (Hin & Hw & Hb). apply in_map. apply filter_In.
    split; [exact Hin|]. unfold kept. apply andb_true_iff. split.
    + destruct exclude_near_white; [|reflexivity]. simpl.
      destruct (Hw eq_refl) as (H1 & H2 & H3).
      apply Z.ltb_lt in H1, H2, H3. now rewrite H1, H2, H3.
    + destruct exclude_near_black; [|reflexivity]. simpl.
      destruct (Hb eq_refl) as (H1 & H2 & H3).
      apply Z.ltb_lt in H1, H2, H3. now rewrite H1, H2, H3.
Qed.
End FilterFacts.

(** Of pure red and a mid grey, the grey pixel is kept (pure red, with a
    channel at 255 and two at 0, is not). *)
Lemma filter_pixels_membership_witness :
  ColorTransfer.filter_pixels true true
    (map (ColorTransfer.map3 inject_Z) [(255, 0, 0); (90, 90, 90)])
  = [ColorTransfer.map3 inject_Z (90, 90, 90)] /\
  In (ColorTransfer.map3 inject_Z (90, 90, 90))
     (ColorTransfer.filter_pixels true true
        (map (ColorTransfer.map3 inject_Z) [(255, 0, 0); (90, 90, 90)])).
Proof.
  split; [reflexivity|].
  apply (filter_pixels_membership true true
           [(255, 0, 0); (90, 90, 90)] 90 90 90).
  split; [right; left; reflexivity|]. split; intros _; lia.
Defined.

Section FrequencyFacts.
Import ColorTransfer.
Local Open Scope nat_scope.

Lemma counter_incr_total (x : nat) (c : list (nat * nat)) :
  list_sum (map snd (counter_incr x c)) = S (list_sum (map snd c)).
Proof.
  induction c as [|[y n] c IH]; simpl; [reflexivity|].
  destruct (Nat.eqb x y); simpl; [reflexivity | rewrite IH; lia].
Qed.

Lemma counter_incr_positive (x : nat) (c : list (nat * nat)) :
  Forall (fun kn => 1 <= snd kn) c ->
  Forall (fun kn => 1 <= snd kn) (counter_incr x c).
Proof.
  induction 1 as [|[y n] c Hy Hc IH]; simpl.
  - repeat constructor.
  - destruct (Nat.eqb x y); constructor; simpl in *; auto; lia.
Qed.

Lemma fold_counter_total (labels : list nat) (c : list (nat * nat)) :
  Forall (fun kn => 1 <= snd kn) c ->
  list_sum (map snd (fold_left (fun c x => counter_incr x c) labels c))
  = List.length labels + list_sum (map snd c) /\
  Forall (fun kn => 1 <= snd kn)
    (fold_left (fun c x => counter_incr x c) labels c).
Proof.
  revert c. induction labels as [|x labels IH]; intros c Hc; simpl.
  - split; [reflexivity | exact Hc].
  - destruct (IH (counter_incr x c) (counter_incr_positive x c Hc)) as [Hs Hp].
    split; [|exact Hp]. rewrite Hs, counter_incr_total. lia.
Qed.

(** With distinct keys, looking every key up gives back the stored
    counts. *)
Lemma count_of_keys (c : list (nat * nat)) :
  NoDup (map fst c) -> map (count_of c) (map fst c) = map snd c.
Proof.
  induction c as [|[y n] c IH]; simpl; intro H; [reflexivity|].
  inversion H as [|? ? Hy Hc]; subst.
  rewrite Nat.eqb_refl. f_equal. rewrite <- (IH Hc).
  apply map_ext_in. intros k Hk.
  destruct (Nat.eqb k y) eqn:E; [|reflexivity].
  apply Nat.eqb_eq in E. subst k. contradiction.
Qed.

Lemma list_sum_perm (l l' : list nat) :
  Permutation l l' -> list_sum l = list_sum l'.
Proof. induction 1; simpl; lia. Qed.

(** The counts of the ranked labels add up to the number of pixels, and
    none is zero. *)
Lemma ranked_counts (labels : list nat) :
  let counts := Counter labels in
  let ranked := sorted_desc (count_of counts) (map fst counts) in
  list_sum (map (count_of counts) ranked) = List.length labels /\
  Forall (fun i => 1 <= count_of counts i) ranked.
Proof.
  intros counts ranked.
  destruct (Counter_keys labels) as (Hn & _ & _).
  destruct (fold_counter_total labels [] (Forall_nil _)) as [Hs Hp].
  fold (Counter labels) in Hs, Hp. fold counts in Hn, Hs, Hp.
  pose proof (sorted_desc_perm (count_of counts) (map fst counts)) as Hperm.
  fold ranked in Hperm. split.
  - rewrite <- (list_sum_perm _ _ (Permutation_map (count_of counts) Hperm)).
    rewrite (count_of_keys counts Hn), Hs. simpl. lia.
  - apply (Permutation_Forall Hperm).
    apply Forall_forall. intros k Hk.
    assert (Hin : In (count_of counts k)
                     (map (count_of counts) (map fst counts)))
      by now apply in_map.
    rewrite (count_of_keys counts Hn) in Hin.
    apply in_map_iff in Hin as (kn & E & Hin).
    rewrite Forall_forall in Hp. specialize (Hp kn Hin). lia.
Qed.

Lemma build_colors_frequencies (centers : list (triple Z))
    (counts : list (nat * nat)) (total : nat) (indices : list nat)
    (cs : list PaletteEntry) :
  build_colors centers counts total indices = Some cs ->
  map frequency cs
  = map (fun i => (inject_Z (Z.of_nat (count_of counts i))
                   / inject_Z (Z.of_nat total))%Q) indices.
Proof.
  revert cs. induction indices as [|i l IH]; simpl; intros cs H.
  - now inversion H.
  - destruct (nth_error centers i); [|discriminate].
    destruct (build_colors centers counts total l) as [es|]; [|discriminate].
    inversion H. simpl. f_equal. now apply IH.
Qed.

Lemma Qsum_fractions (f : nat -> nat) (total : nat) (l : list nat) :
  (Qsum (map (fun i => inject_Z (Z.of_nat (f i)) / inject_Z (Z.of_nat total)) l)
   == inject_Z (Z.of_nat (list_sum (map f l))) / inject_Z (Z.of_nat total))%Q.
Proof.
  induction l as [|i l IH]; simpl.
  - unfold Qdiv. now rewrite Qmult_0_l.
  - rewrite IH, Nat2Z.inj_add, inject_Z_plus. unfold Qdiv. ring.
Qed.

Variable kmeans :
  list (triple Q) -> Z -> option (list (triple Q) * list nat).
Variable nan_as_int : Z.

(** X5: In a palette with detailed entries (the k-means branch) every entry
    has a positive frequency and the frequencies add up to 1. *)
Theorem extract_palette_frequencies (img : list (triple Z)) (k : Z)
    (exclude_near_white exclude_near_black : bool) (p : Palette)
    (cs : list PaletteEntry) :
  extract_palette kmeans nan_as_int img k
    exclude_near_white exclude_near_black = Some p ->
  palette_details p = Some cs ->
  (Qsum (map frequency cs) == 1)%Q /\
  Forall (fun e => (0 < frequency e)%Q) cs.
Proof.
  unfold extract_palette. destruct (_ <? k)%Z.
  - intros [= <-]. discriminate.
  - intros H Hd. apply kmeans_palette_inv in H
      as (cc & labels & bg & rest & _ & Hb & _ & Hd' & _).
    rewrite Hd in Hd'. injection Hd' as ->.
    destruct (ranked_counts labels) as [Hsum Hpos].
    assert (Hlen : (0 < List.length labels)%nat).
    { pose proof (build_colors_length _ _ _ _ _ Hb) as Hl. simpl in Hl.
      destruct labels; [discriminate | simpl; lia]. }
    assert (Ht : (0 < inject_Z (Z.of_nat (List.length labels)))%Q).
    { change 0%Q with (inject_Z 0). rewrite <- Zlt_Qlt. lia. }
    split.
    + rewrite (build_colors_frequencies _ _ _ _ _ Hb), Qsum_fractions, Hsum.
      field. intro E. rewrite E in Ht. now apply Qlt_irrefl in Ht.
    + apply Forall_forall. intros e He.
      assert (Hin : In (frequency e) (map frequency (bg :: rest)))
        by now apply in_map.
      rewrite (build_colors_frequencies _ _ _ _ _ Hb) in Hin.
      apply in_map_iff in Hin as (i & <- & Hi).
      rewrite Forall_forall in Hpos. specialize (Hpos i Hi).
      apply Qlt_shift_div_l; [exact Ht|].
      rewrite Qmult_0_l. change 0%Q with (inject_Z 0).
      rewrite <- Zlt_Qlt. lia.
Qed.
End FrequencyFacts.

(** Five pixels in two clusters: the frequencies 3/5 and 2/5. *)
Lemma extract_palette_frequencies_witness :
  exists p cs,
    ColorTransfer.extract_palette Sample.kmeans 0
      [(200, 30, 30); (30, 30, 200); (200, 30, 30); (30, 30, 200);
       (200, 30, 30)] 2 true true = Some p /\
    ColorTransfer.palette_details p = Some cs /\
    (ColorTransfer.Qsum (map ColorTransfer.frequency cs) == 1)%Q /\
    Forall (fun e => (0 < ColorTransfer.frequency e)%Q) cs.
Proof.
  do 2 eexists. split; [vm_compute; reflexivity|].
  split; [reflexivity|].
  eapply (extract_palette_frequencies Sample.kmeans 0
            [(200, 30, 30); (30, 30, 200); (200, 30, 30); (30, 30, 200);
             (200, 30, 30)] 2 true true);
    [vm_compute; reflexivity | reflexivity].
Defined.

Section FallbackColour.
Import ColorTransfer.

Variable kmeans :
  list (triple Q) -> Z -> option (list (triple Q) * list nat).
Variable nan_as_int : Z.

Lemma channel_of_floats (i : nat) (l : list (triple Z)) :
  map (chan i) (map (map3 inject_Z) l) = map inject_Z (map (chan i) l).
Proof.
  rewrite !map_map. apply map_ext. intros [[r g] b].
  destruct i as [|[|i]]; reflexivity.
Qed.

(** X6: When at least one and fewer than [k] pixels of an 8-bit image
    survive the filters, and fewer than 65536 (so that every [float32]
    partial sum is exact), the palette is a single colour: per channel,
    the sum of the surviving values divided by their number, rounded
    down. *)
Theorem extract_palette_mean_colour (img : list (triple Z)) (k : Z)
    (exclude_near_white exclude_near_black : bool) :
  let left := filter (kept exclude_near_white exclude_near_black) img in
  let n := Z.of_nat (List.length left) in
  let total i := fold_right Z.add 0 (map (chan i) left) in
  Forall valid_rgb img ->
  left <> [] -> n < k -> n < 65536 ->
  extract_palette kmeans nan_as_int img k
    exclude_near_white exclude_near_black
  = Some (mkPalette
            [hex_color (total 0%nat / n, total 1%nat / n, total 2%nat / n)]
            None
            (hex_color (total 0%nat / n, total 1%nat / n, total 2%nat / n))
            None).
Proof.
  intros left n total Hv Hne Hlt Hsmall.
  pose proof (extract_palette_fallback_mean kmeans nan_as_int img k
                exclude_near_white exclude_near_black) as H.
  cbv zeta in H. rewrite filter_pixels_kept in H. fold left in H.
  rewrite length_map in H.
  rewrite H; [| destruct left; [congruence | discriminate] | exact Hlt].
  rewrite !channel_of_floats.
  assert (Hleft : Forall valid_rgb left).
  { apply Forall_forall. intros p Hp. unfold left in Hp.
    apply filter_In in Hp. rewrite Forall_forall in Hv. now apply Hv. }
  assert (Hm : forall i, (i < 3)%nat ->
             py_int (np_mean32 (map inject_Z (map (chan i) left)))
             = total i / n).
  { intros i Hi. rewrite mean32_truncated.
    - unfold total, n. now rewrite length_map.
    - destruct left; [congruence | discriminate].
    - rewrite Forall_forall. intros z Hz. apply in_map_iff in Hz.
      destruct Hz as ([[r g] b] & <- & Hp).
      rewrite Forall_forall in Hleft. specialize (Hleft _ Hp).
      destruct Hleft as (Hr & Hg & Hb).
      destruct i as [|[|[|i]]]; try lia; assumption.
    - rewrite length_map. exact Hsmall. }
  rewrite !Hm by lia. reflexivity.
Qed.

(** Beyond that size the [float32] sum drifts: 67381 pixels of the grey
    249 add up to 16777868 instead of 16777869, their mean falls below
    249, and the colour returned is [#f8f8f8]. *)
Lemma extract_palette_mean_drifts :
  extract_palette kmeans nan_as_int
    (repeat (249, 249, 249) (Z.to_nat 67381)) 70000 true true
  = Some (mkPalette ["#f8f8f8"%string] None "#f8f8f8" None).
Proof. vm_compute. reflexivity. Qed.

Variable cv_BGR2LAB : triple Z -> triple Z.
Variable np_std : list Q -> Q.
Variable str_float : Q -> string.

(** X7: The [suggest] command needs six usable pixels on each side: when
    either image keeps fewer than six pixels after the default filters
    (and neither extraction raises), it answers with the no-data
    failure. *)
Theorem suggest_command_needs_six_pixels (ref_img gen_img : list (triple Z)) :
  (List.length (filter (kept true true) ref_img) < 6
   \/ List.length (filter (kept true true) gen_img) < 6)%nat ->
  extract_palette kmeans nan_as_int ref_img 6 true true <> None ->
  extract_palette kmeans nan_as_int gen_img 6 true true <> None ->
  suggest_command kmeans nan_as_int cv_BGR2LAB np_std str_float
    ref_img gen_img
  = Some (NoData "No palette data available").
Proof.
  intros Hfew Href Hgen. unfold suggest_command.
  assert (Hfb : forall img p,
             (List.length (filter (kept true true) img) < 6)%nat ->
             extract_palette kmeans nan_as_int img 6 true true = Some p ->
             get_palette_details p = []).
  { intros img p Hl. unfold extract_palette.
    rewrite filter_pixels_kept, length_map.
    assert (E : (Z.of_nat (List.length (filter (kept true true) img)) <? 6)
                = true) by (apply Z.ltb_lt; lia).
    rewrite E. now intros [= <-]. }
  destruct (extract_palette kmeans nan_as_int ref_img 6 true true)
    as [rp|] eqn:Er; [|congruence].
  destruct (extract_palette kmeans nan_as_int gen_img 6 true true)
    as [gp|] eqn:Eg; [|congruence].
  unfold suggest_color_adjustments.
  destruct Hfew as [Hl|Hl].
  - now rewrite (Hfb ref_img rp Hl Er).
  - rewrite (Hfb gen_img gp Hl Eg).
    now destruct (get_palette_details rp).
Qed.
End FallbackColour.

(** Two grey pixels and [k = 6]: the colour is their rounded-down mean. *)
Lemma extract_palette_mean_colour_witness :
  ColorTransfer.extract_palette Sample.kmeans 0
    [(100, 100, 100); (255, 255, 255); (103, 100, 90)] 6 true true
  = Some (ColorTransfer.mkPalette ["#65645f"%string] None "#65645f" None).
Proof.
  rewrite (extract_palette_mean_colour Sample.kmeans 0
             [(100, 100, 100); (255, 255, 255); (103, 100, 90)] 6 true true).
  - reflexivity.
  - repeat constructor; vm_compute; discriminate.
  - discriminate.
  - vm_compute. reflexivity.
  - vm_compute. reflexivity.
Defined.

(** A one-pixel reference against a four-pixel generated image. *)
Lemma suggest_command_needs_six_pixels_witness :
  ColorTransfer.suggest_command Sample.kmeans 0
    Sample.bgr2lab Sample.spread Sample.str_float
    [(100, 100, 100)]
    [(90, 90, 90); (120, 120, 120); (220, 40, 40); (90, 90, 90)]
  = Some (ColorTransfer.NoData "No palette data available").
Proof.
  apply suggest_command_needs_six_pixels.
  - left. vm_compute. lia.
  - discriminate.
  - discriminate.
Defined.

(** ** Reinhard transfer: statistics of the result *)

Section ReinhardStatistics.
Import ColorTransfer.
Local Open Scope Q_scope.

Variable np_std : list Q -> Q.

(** The result, pixel by pixel and channel by channel. *)
Lemma reinhard_lab_channel (source_lab target_lab : list (triple Q))
    (preserve_luminance : bool) (i : nat) :
  (i < 3)%nat ->
  channel i (reinhard_lab np_std source_lab target_lab preserve_luminance)
  = if preserve_luminance && (i =? 0)%nat then channel i source_lab
    else map (transfer_value i (stat3 Qmean source_lab)
                (map3 guard_std (stat3 np_std source_lab))
                (stat3 Qmean target_lab) (stat3 np_std target_lab))
             (channel i source_lab).
Proof.
  intro Hi. unfold reinhard_lab.
  pose proof (channel_loop_pointwise
                (fun i => transfer_value i (stat3 Qmean source_lab)
                            (map3 guard_std (stat3 np_std source_lab))
                            (stat3 Qmean target_lab)
                            (stat3 np_std target_lab))
                (if preserve_luminance then [1; 2] else [0; 1; 2])%nat
                (fun p => p) source_lab) as E.
  rewrite map_id in E. rewrite E. unfold channel. rewrite map_map.
  destruct preserve_luminance; destruct i as [|[|[|i]]]; try lia; simpl;
    try rewrite map_map; apply map_ext; intros [[x y] z]; reflexivity.
Qed.

Lemma Qsum_affine (m c t : Q) (l : list Q) :
  Qsum (map (fun v => (v - m) * c + t) l)
  == (Qsum l - inject_Z (Z.of_nat (List.length l)) * m) * c
     + inject_Z (Z.of_nat (List.length l)) * t.
Proof.
  induction l as [|v l IH].
  - simpl. ring.
  - cbn [map Qsum fold_right List.length]. fold (Qsum l).
    fold (Qsum (map (fun v => (v - m) * c + t) l)).
    rewrite IH, Nat2Z.inj_succ. unfold Z.succ. rewrite inject_Z_plus. ring.
Qed.

(** An affine image of a non-empty list centred on its own mean has the
    offset as its mean. *)
Lemma Qmean_recentred (c t : Q) (l : list Q) :
  l <> [] -> Qmean (map (fun v => (v - Qmean l) * c + t) l) == t.
Proof.
  intro Hne. unfold Qmean at 1. rewrite Qsum_affine, length_map.
  unfold Qmean.
  assert (Hn : ~ inject_Z (Z.of_nat (List.length l)) == 0).
  { change 0 with (inject_Z 0). rewrite inject_Z_injective.
    destruct l; [congruence | simpl; lia]. }
  field. exact Hn.
Qed.

Variable cv_BGR2LAB : triple Z -> triple Z.

(** X8: In exact arithmetic, before clipping, every transferred channel of the
    result has the mean of the target's channel. *)
Theorem reinhard_matches_target_mean (source_img target_img : list (triple Z))
    (preserve_luminance : bool) (i : nat) :
  source_img <> [] -> (i < 3)%nat ->
  preserve_luminance && (i =? 0)%nat = false ->
  let source_lab := rgb_to_lab cv_BGR2LAB (Img3 source_img) in
  let target_lab := rgb_to_lab cv_BGR2LAB (Img3 target_img) in
  Qmean (channel i
           (reinhard_lab np_std source_lab target_lab preserve_luminance))
  == chan i (stat3 Qmean target_lab).
Proof.
  intros Hne Hi Htr source_lab target_lab.
  rewrite reinhard_lab_channel by exact Hi. rewrite Htr.
  assert (Hm : chan i (stat3 Qmean source_lab) = Qmean (channel i source_lab)).
  { destruct i as [|[|[|i]]]; try lia; reflexivity. }
  unfold transfer_value. rewrite Hm.
  apply (Qmean_recentred _ _ (channel i source_lab)).
  unfold source_lab, rgb_to_lab, channel.
  destruct source_img; [congruence | discriminate].
Qed.

(** X9: Transferring an image onto itself leaves, in exact arithmetic, every
    channel unchanged whose deviation is at least [1e-6]. *)
Theorem reinhard_self_transfer (lab : list (triple Q))
    (preserve_luminance : bool) (i : nat) :
  (i < 3)%nat ->
  1 # 1000000 <= np_std (channel i lab) ->
  Forall2 Qeq
    (channel i (reinhard_lab np_std lab lab preserve_luminance))
    (channel i lab).
Proof.
  intros Hi Hstd. rewrite reinhard_lab_channel by exact Hi.
  assert (Hrefl : forall l : list Q, Forall2 Qeq l l).
  { induction l; constructor; [reflexivity | assumption]. }
  destruct (preserve_luminance && (i =? 0)%nat); [apply Hrefl|].
  assert (Hs : chan i (stat3 np_std lab) = np_std (channel i lab)).
  { destruct i as [|[|[|i]]]; try lia; reflexivity. }
  assert (Hg : chan i (map3 guard_std (stat3 np_std lab))
               = np_std (channel i lab)).
  { assert (G : guard_std (np_std (channel i lab)) = np_std (channel i lab)).
    { unfold guard_std.
      apply Qlt_bool_false_iff in Hstd. now rewrite Hstd. }
    unfold stat3. destruct i as [|[|[|i]]]; try lia; simpl; exact G. }
  unfold transfer_value. rewrite Hg, Hs.
  assert (Hnz : ~ np_std (channel i lab) == 0).
  { intro E. rewrite E in Hstd. revert Hstd.
    apply Qlt_not_le. reflexivity. }
  generalize (chan i (stat3 Qmean lab)) as m.
  revert Hnz. generalize (np_std (channel i lab)) as s.
  intros s Hnz m. clear Hstd Hs Hg.
  induction (channel i lab) as [|v l IH]; simpl; constructor.
  - field. exact Hnz.
  - exact IH.
Qed.

Variable cv_LAB2BGR : triple Z -> triple Z.

(** X10: An image transferred onto itself reports zero shifts, and still the
    labels "lighter" and "cooler": the labels have no neutral value. *)
Theorem reinhard_shift_of_identical (img : list (triple Z))
    (preserve_luminance : bool) :
  let shift :=
    color_shift (reinhard_color_transfer cv_BGR2LAB cv_LAB2BGR np_std
                   img img preserve_luminance) in
  L_shift shift == 0 /\ a_shift shift == 0 /\ b_shift shift == 0 /\
  brightness_change shift = "lighter"%string /\
  warmth_change shift = "cooler"%string.
Proof.
  simpl. repeat split; try ring.
  - assert (E : forall q, Qlt_bool q q = false).
    { intro q. apply Qlt_bool_false_iff. apply Qle_refl. }
    now rewrite E.
  - assert (E : forall q, Qlt_bool q q = false).
    { intro q. apply Qlt_bool_false_iff. apply Qle_refl. }
    now rewrite E.
Qed.
End ReinhardStatistics.

(** Lightness 60 and 120 moved onto a target of mean 50. *)
Lemma reinhard_matches_target_mean_witness :
  (ColorTransfer.Qmean
     (ColorTransfer.channel 0
        (ColorTransfer.reinhard_lab Sample.spread
           (ColorTransfer.rgb_to_lab Sample.bgr2lab
              (ColorTransfer.Img3 [(30, 60, 90); (90, 120, 150)]%Z))
           (ColorTransfer.rgb_to_lab Sample.bgr2lab
              (ColorTransfer.Img3 [(0, 0, 0); (100, 100, 100)]%Z))
           false))
   == 50)%Q.
Proof.
  rewrite (reinhard_matches_target_mean Sample.spread Sample.bgr2lab
             [(30, 60, 90); (90, 120, 150)] [(0, 0, 0); (100, 100, 100)]
             false 0).
  - vm_compute. reflexivity.
  - discriminate.
  - lia.
  - reflexivity.
Defined.

Lemma reinhard_self_transfer_witness :
  Forall2 Qeq
    (ColorTransfer.channel 0
       (ColorTransfer.reinhard_lab Sample.spread
          [(60, 128, 128); (120, 128, 128)]%Q
          [(60, 128, 128); (120, 128, 128)]%Q false))
    [60; 120]%Q.
Proof.
  apply (reinhard_self_transfer Sample.spread
           [(60, 128, 128); (120, 128, 128)]%Q false 0).
  - lia.
  - vm_compute. discriminate.
Defined.

(** ** Adjustment suggestions: range and fixed point *)

Section SuggestRange.
Import ColorTransfer.
Local Open Scope Q_scope.

Lemma clamp_range (lo hi x : Q) :
  lo <= hi -> lo <= py_max lo (py_min hi x) <= hi.
Proof.
  intro H. unfold py_max, py_min.
  destruct (Qlt_bool x hi) eqn:E1;
    [apply Qlt_bool_iff in E1 | apply Qlt_bool_false_iff in E1].
  - destruct (Qlt_bool lo x) eqn:E2;
      [apply Qlt_bool_iff in E2 | apply Qlt_bool_false_iff in E2]; lra.
  - destruct (Qlt_bool lo hi) eqn:E2;
      [apply Qlt_bool_iff in E2 | apply Qlt_bool_false_iff in E2]; lra.
Qed.

Lemma brightness_of_range (l : Q) : 1 # 2 <= brightness_of l <= 3 # 2.
Proof.
  unfold brightness_of. destruct (Qlt_bool 10 (Qabs l)).
  - apply clamp_range. lra.
  - lra.
Qed.

Lemma saturate_of_range (r g : Q) : 1 # 2 <= saturate_of r g <= 3 # 2.
Proof.
  unfold saturate_of. destruct (Qlt_bool 0 g).
  - apply clamp_range. lra.
  - lra.
Qed.

Variable cv_BGR2LAB : triple Z -> triple Z.
Variable np_std : list Q -> Q.
Variable str_float : Q -> string.

Lemma suggest_inv (ref_palette gen_palette : Palette) (filters : Filters)
    (css tone : string) :
  suggest_color_adjustments cv_BGR2LAB np_std str_float
    ref_palette gen_palette = Some (Suggested filters css tone) ->
  exists ref_lab gen_lab,
    (exists r rs, get_palette_details ref_palette = r :: rs /\
                  lab_of_rgb cv_BGR2LAB (rgb r) = Some ref_lab) /\
    (exists g gs, get_palette_details gen_palette = g :: gs /\
                  lab_of_rgb cv_BGR2LAB (rgb g) = Some gen_lab) /\
    filters = mkFilters (brightness_of (chan 0 ref_lab - chan 0 gen_lab)) 1
                (saturate_of (np_std (flat_rgb (get_palette_details ref_palette)))
                   (np_std (flat_rgb (get_palette_details gen_palette)))) /\
    tone = tone_of (chan 0 ref_lab - chan 0 gen_lab).
Proof.
  unfold suggest_color_adjustments.
  destruct (get_palette_details ref_palette) as [|r rs]; [discriminate|].
  destruct (get_palette_details gen_palette) as [|g gs]; [discriminate|].
  destruct (lab_of_rgb cv_BGR2LAB (rgb r)) as [rl|] eqn:Er; [|discriminate].
  destruct (lab_of_rgb cv_BGR2LAB (rgb g)) as [gl|] eqn:Eg; [|discriminate].
  intros [= <- _ <-]. exists rl, gl. repeat split; eauto.
Qed.

(** X11: Every suggestion keeps brightness and saturation between 0.5 and 1.5
    and has contrast 1, whatever the palettes and the deviations. *)
Theorem suggest_filters_in_range (ref_palette gen_palette : Palette)
    (filters : Filters) (css tone : string) :
  suggest_color_adjustments cv_BGR2LAB np_std str_float
    ref_palette gen_palette = Some (Suggested filters css tone) ->
  1 # 2 <= brightness filters <= 3 # 2 /\
  1 # 2 <= saturate filters <= 3 # 2 /\
  contrast filters = 1.
Proof.
  intro H. apply suggest_inv in H as (rl & gl & _ & _ & -> & _).
  simpl. split; [apply brightness_of_range|].
  split; [apply saturate_of_range | reflexivity].
Qed.

(** X12: A palette compared with itself gets the identity filters and the
    neutral tone. *)
Theorem suggest_same_palette (palette : Palette) (filters : Filters)
    (css tone : string) :
  suggest_color_adjustments cv_BGR2LAB np_std str_float palette palette
  = Some (Suggested filters css tone) ->
  brightness filters == 1 /\ saturate filters == 1 /\
  contrast filters == 1 /\ tone = "neutral"%string.
Proof.
  intro H. apply suggest_inv in H
    as (rl & gl & (r & rs & Hr & Hrl) & (g & gs & Hg & Hgl) & -> & ->).
  rewrite Hr in Hg. injection Hg as <- <-.
  rewrite Hrl in Hgl. injection Hgl as <-.
  set (a := chan 0 rl).
  assert (E0 : a - a == 0) by ring.
  simpl. split; [|split; [|split]].
  - unfold brightness_of.
    assert (H : Qlt_bool 10 (Qabs (a - a)) = false).
    { apply Qlt_bool_false_iff. rewrite E0. discriminate. }
    now rewrite H.
  - unfold saturate_of. rewrite Hr.
    destruct (Qlt_bool 0 (np_std (flat_rgb (r :: rs)))) eqn:E;
      [|reflexivity].
    apply Qlt_bool_iff in E.
    rewrite (clamp_spec (1 # 2) (3 # 2) 1); [reflexivity | lra |].
    rewrite (py_round_comp _ 1); [reflexivity|].
    field. intro Hz. rewrite Hz in E. now apply Qlt_irrefl in E.
  - reflexivity.
  - unfold tone_of.
    assert (H1 : Qlt_bool (a - a) (-10) = false).
    { apply Qlt_bool_false_iff. rewrite E0. discriminate. }
    assert (H2 : Qlt_bool 10 (a - a) = false).
    { apply Qlt_bool_false_iff. rewrite E0. discriminate. }
    now rewrite H1, H2.
Qed.
End SuggestRange.

(** A light reference against a dark generated palette: the brightness,
    which would be 2, is held at 1.5. *)
Lemma suggest_filters_in_range_witness :
  let ref_palette :=
    ColorTransfer.mkPalette ["#c8c8c8"%string]
      (Some [ColorTransfer.mkEntry "#c8c8c8" (200, 200, 200) 1])
      "#c8c8c8" (Some "#c8c8c8"%string) in
  let gen_palette :=
    ColorTransfer.mkPalette ["#646464"%string]
      (Some [ColorTransfer.mkEntry "#646464" (100, 100, 100) 1])
      "#646464" (Some "#646464"%string) in
  exists filters css tone,
    ColorTransfer.suggest_color_adjustments
      Sample.bgr2lab Sample.spread Sample.str_float ref_palette gen_palette
    = Some (ColorTransfer.Suggested filters css tone) /\
    (1 # 2 <= ColorTransfer.brightness filters <= 3 # 2)%Q /\
    (1 # 2 <= ColorTransfer.saturate filters <= 3 # 2)%Q /\
    ColorTransfer.contrast filters = 1%Q.
Proof.
  intros ref_palette gen_palette.
  do 3 eexists. split; [reflexivity|].
  apply (suggest_filters_in_range Sample.bgr2lab Sample.spread
           Sample.str_float ref_palette gen_palette _ _ _ eq_refl).
Defined.

Lemma suggest_same_palette_witness :
  let palette :=
    ColorTransfer.mkPalette ["#c8c8c8"%string; "#646464"%string]
      (Some [ColorTransfer.mkEntry "#c8c8c8" (200, 200, 200) (3 # 4);
             ColorTransfer.mkEntry "#646464" (100, 100, 100) (1 # 4)])
      "#c8c8c8" (Some "#646464"%string) in
  exists filters css tone,
    ColorTransfer.suggest_color_adjustments
      Sample.bgr2lab Sample.spread Sample.str_float palette palette
    = Some (ColorTransfer.Suggested filters css tone) /\
    (ColorTransfer.brightness filters == 1)%Q /\
    (ColorTransfer.saturate filters == 1)%Q /\
    (ColorTransfer.contrast filters == 1)%Q /\
    tone = "neutral"%string.
Proof.
  intro palette.
  do 3 eexists. split; [reflexivity|].
  apply (suggest_same_palette Sample.bgr2lab Sample.spread Sample.str_float
           palette _ _ _ eq_refl).
Defined.

(** ** Structural similarity: the regions and the verdict *)

Section SsimReportFacts.
Import ColorTransfer.
Local Open Scope Q_scope.

Variable HAS_SKIMAGE : bool.
Variable cv_resize : image (triple Z) -> nat * nat -> image (triple Z).
Variable cv_RGB2GRAY : triple Z -> Z.
Variable ssim_windows : image Z -> image Z -> Q * image Q.
Variable contour : Type.
Variable findContours : image Z -> list contour.
Variable boundingRect : contour -> Z * Z * Z * Z.
Variable contourArea : contour -> Q.

Lemma compute_ssim_inv (img1 img2 : image (triple Z)) (report : SsimReport) :
  compute_ssim HAS_SKIMAGE cv_resize cv_RGB2GRAY ssim_windows contour
    findContours boundingRect contourArea img1 img2
  = Some (SsimOk report) ->
  exists score contours,
    report = ssim_report score
               (flat_map (region_of contour boundingRect contourArea)
                  (firstn 5 contours)).
Proof.
  unfold compute_ssim. destruct HAS_SKIMAGE; simpl; [|discriminate].
  destruct (same_shape cv_resize img1 img2) as [a b].
  destruct (structural_similarity _ _ _) as [[score diff_map]|];
    [|discriminate].
  intros [= <-]. eauto.
Qed.

Lemma region_of_bounded (c : contour) :
  (List.length (region_of contour boundingRect contourArea c) <= 1)%nat /\
  Forall (fun r => (100 <= area r)%Z)
    (region_of contour boundingRect contourArea c).
Proof.
  unfold region_of. destruct (boundingRect c) as [[[x y] w] h].
  destruct (Qlt_bool 100 (contourArea c)) eqn:E; simpl.
  - split; [lia|]. constructor; [|constructor]. simpl.
    apply Qlt_bool_iff in E.
    rewrite py_int_nonneg by lra.
    change 100%Z with (Qfloor 100). apply Qfloor_resp_le. lra.
  - split; [lia | constructor].
Qed.

Lemma regions_bounded (contours : list contour) :
  (List.length (flat_map (region_of contour boundingRect contourArea)
                  contours)
   <= List.length contours)%nat /\
  Forall (fun r => (100 <= area r)%Z)
    (flat_map (region_of contour boundingRect contourArea) contours).
Proof.
  induction contours as [|c l [IHl IHa]]; simpl.
  - split; [lia | constructor].
  - destruct (region_of_bounded c) as [Hl Ha].
    rewrite length_app. split; [lia|].
    apply Forall_app. split; assumption.
Qed.

(** X13: A report lists at most five difference regions, each of area at
    least 100: contours beyond the fifth are never looked at, and a
    contour counts only when its area exceeds 100 (the stored area is its
    integer part). *)
Theorem compute_ssim_regions (img1 img2 : image (triple Z))
    (report : SsimReport) :
  compute_ssim HAS_SKIMAGE cv_resize cv_RGB2GRAY ssim_windows contour
    findContours boundingRect contourArea img1 img2
  = Some (SsimOk report) ->
  (List.length (difference_regions report) <= 5)%nat /\
  Forall (fun r => (100 <= area r)%Z) (difference_regions report).
Proof.
  intro H. apply compute_ssim_inv in H as (score & contours & ->).
  unfold ssim_report. cbn [difference_regions].
  destruct (regions_bounded (firstn 5 contours)) as [Hl Ha].
  split; [|exact Ha].
  pose proof (length_firstn 5 contours). lia.
Qed.

(** X14: The verdict and the bucket of a report agree this far: "excellent"
    always passes, "fair" and "poor" never do, and a passing report is
    "excellent" or "good" ("good" covers scores on both sides of 0.94). *)
Theorem compute_ssim_verdict (img1 img2 : image (triple Z))
    (report : SsimReport) :
  compute_ssim HAS_SKIMAGE cv_resize cv_RGB2GRAY ssim_windows contour
    findContours boundingRect contourArea img1 img2
  = Some (SsimOk report) ->
  (analysis report = "excellent"%string -> passed report = true) /\
  (passed report = true ->
   analysis report = "excellent"%string \/ analysis report = "good"%string) /\
  (analysis report = "fair"%string \/ analysis report = "poor"%string ->
   passed report = false).
Proof.
  intro H. apply compute_ssim_inv in H as (score & contours & ->).
  simpl. unfold analysis_of.
  destruct (Qle_bool (95 # 100) score) eqn:E95;
    [apply Qle_bool_iff in E95|].
  - assert (P : Qle_bool (94 # 100) score = true)
      by (apply Qle_bool_iff; lra).
    rewrite P. repeat split; auto. intros [|]; discriminate.
  - destruct (Qle_bool (90 # 100) score) eqn:E90.
    + repeat split; auto; try discriminate. intros [|]; discriminate.
    + assert (P : Qle_bool (94 # 100) score = false).
      { destruct (Qle_bool (94 # 100) score) eqn:P; [|reflexivity].
        apply Qle_bool_iff in P.
        assert (Q90 : Qle_bool (90 # 100) score = true)
          by (apply Qle_bool_iff; lra).
        congruence. }
      rewrite P. destruct (Qle_bool (80 # 100) score);
        repeat split; auto; discriminate.
Qed.
End SsimReportFacts.

(** A report built from seven contours of areas 100.5, 200.5, ...: only
    the first five are kept, and the first is stored with area 100. *)
Lemma compute_ssim_regions_witness :
  exists report,
    ColorTransfer.compute_ssim true Sample.cv_resize Sample.rgb2gray
      Sample.ssim_windows (list (Z * Z)) Sample.seven_contours
      Sample.boundingRect Sample.area_by_corner
      (Sample.grey_image 7 7 128) (Sample.grey_image 7 7 128)
    = Some (ColorTransfer.SsimOk report) /\
    map ColorTransfer.area (ColorTransfer.difference_regions report)
    = [100; 200; 300; 400; 500] /\
    (List.length (ColorTransfer.difference_regions report) <= 5)%nat /\
    Forall (fun r => 100 <= ColorTransfer.area r)
      (ColorTransfer.difference_regions report).
Proof.
  eexists. split; [vm_compute; reflexivity|].
  split; [reflexivity|].
  apply (compute_ssim_regions true Sample.cv_resize Sample.rgb2gray
           Sample.ssim_windows (list (Z * Z)) Sample.seven_contours
           Sample.boundingRect Sample.area_by_corner
           (Sample.grey_image 7 7 128) (Sample.grey_image 7 7 128)).
  vm_compute. reflexivity.
Defined.

(** A score of 0.93999 is "good" and does not pass. *)
Lemma compute_ssim_verdict_witness :
  exists report,
    ColorTransfer.compute_ssim true Sample.cv_resize Sample.rgb2gray
      Sample.ssim_near_threshold (list (Z * Z)) Sample.findContours
      Sample.boundingRect Sample.contourArea
      (Sample.grey_image 7 7 128) (Sample.grey_image 7 7 128)
    = Some (ColorTransfer.SsimOk report) /\
    ColorTransfer.analysis report = "good"%string /\
    ColorTransfer.passed report = false /\
    (ColorTransfer.analysis report = "excellent"%string ->
     ColorTransfer.passed report = true).
Proof.
  eexists. split; [vm_compute; reflexivity|].
  split; [reflexivity|]. split; [reflexivity|].
  apply (compute_ssim_verdict true Sample.cv_resize Sample.rgb2gray
           Sample.ssim_near_threshold (list (Z * Z)) Sample.findContours
           Sample.boundingRect Sample.contourArea
           (Sample.grey_image 7 7 128) (Sample.grey_image 7 7 128)).
  vm_compute. reflexivity.
Defined.

(** ** Hex colours: writing and reading back *)

Section HexFacts.
Import ColorTransfer.

Lemma reads_back_all (v : Z) : 0 <= v <= 255 -> reads_back v = true.
Proof.
  intro Hv.
  assert (Hall : forallb reads_back (map Z.of_nat (seq 0 256)) = true)
    by (vm_compute; reflexivity).
  rewrite forallb_forall in Hall. apply Hall.
  apply in_map_iff. exists (Z.to_nat v). split; [lia|].
  apply in_seq. lia.
Qed.

Lemma reads_back_inv (v : Z) :
  reads_back v = true ->
  exists c1 c2,
    format_02x v = String c1 (String c2 EmptyString) /\
    Ascii.eqb c1 "#" = false /\
    py_int16 (String c1 (String c2 EmptyString)) = Some v.
Proof.
  unfold reads_back.
  destruct (format_02x v) as [|c1 [|c2 [|c3 s]]]; try discriminate.
  intro H. apply andb_true_iff in H as [H1 H2].
  exists c1, c2. split; [reflexivity|].
  split; [now apply negb_true_iff|].
  destruct (py_int16 _) as [u|]; [|discriminate].
  apply Z.eqb_eq in H2. now subst.
Qed.

(** X15: The hex string written for an 8-bit colour is seven characters long
    and [hex_to_rgb] reads the same colour back from it. *)
Theorem hex_to_rgb_of_hex_color (c : triple Z) :
  valid_rgb c ->
  String.length (hex_color c) = 7%nat /\
  hex_to_rgb (hex_color c) = Some c.
Proof.
  destruct c as [[r g] b]. intros (Hr & Hg & Hb).
  destruct (reads_back_inv r (reads_back_all r Hr))
    as (r1 & r2 & Er & Nr & Ir).
  destruct (reads_back_inv g (reads_back_all g Hg))
    as (g1 & g2 & Eg & _ & Ig).
  destruct (reads_back_inv b (reads_back_all b Hb))
    as (b1 & b2 & Eb & _ & Ib).
  unfold hex_color. rewrite Er, Eg, Eb. split; [reflexivity|].
  unfold hex_to_rgb. cbn [lstrip_hash append].
  change (Ascii.eqb "#" "#") with true. cbn iota.
  cbn [lstrip_hash]. rewrite Nr.
  cbn [substring]. now rewrite Ir, Ig, Ib.
Qed.

Lemma substring_beyond (n m : nat) (s : string) :
  (String.length s <= n)%nat -> substring n m s = EmptyString.
Proof.
  revert s. induction n as [|n IH]; intros s Hs.
  - destruct s; [now destruct m | simpl in Hs; lia].
  - destruct s; [reflexivity|]. simpl in *. apply IH. lia.
Qed.

(** X16: A colour string with fewer than five characters after its leading
    ["#"], such as the short form ["#fff"], is not read: [hex_to_rgb]
    raises. *)
Theorem hex_to_rgb_short (h : string) :
  (String.length (lstrip_hash h) <= 4)%nat -> hex_to_rgb h = None.
Proof.
  intro H. unfold hex_to_rgb.
  rewrite (substring_beyond 4 2 _ H).
  destruct (py_int16 (substring 0 2 _)); [|reflexivity].
  destruct (py_int16 (substring 2 2 _)); reflexivity.
Qed.

Variable cv_BGR2LAB : triple Z -> triple Z.
Variable np_sqrt : Q -> Q.

Lemma Qsquare_diff_self (z : Z) :
  ((inject_Z z - inject_Z z) * (inject_Z z - inject_Z z))%Q = 0%Q.
Proof.
  unfold Qminus, Qplus, Qopp, Qmult, inject_Z. simpl.
  f_equal. lia.
Qed.

(** X17: The distance of a readable colour to itself is the square root of
    exactly zero; a string that cannot be read makes the call raise. *)
Theorem compute_color_distance_self (color : string) :
  compute_color_distance cv_BGR2LAB np_sqrt color color
  = match hex_to_rgb color with
    | Some _ => Some (np_sqrt 0)
    | None => None
    end.
Proof.
  unfold compute_color_distance.
  destruct (hex_to_rgb color) as [c|]; [|reflexivity].
  unfold lab_of_hex, rgb_to_lab. cbn [map nth_error].
  destruct (cv_BGR2LAB _) as [[l a] b]. cbn [map3 chan].
  now rewrite !Qsquare_diff_self.
Qed.
End HexFacts.

Lemma hex_to_rgb_of_hex_color_witness :
  ColorTransfer.hex_color (255, 128, 0) = "#ff8000"%string /\
  ColorTransfer.hex_to_rgb "#ff8000" = Some (255, 128, 0).
Proof.
  split; [reflexivity|].
  apply (hex_to_rgb_of_hex_color (255, 128, 0)). simpl. lia.
Defined.

Lemma hex_to_rgb_short_witness : ColorTransfer.hex_to_rgb "#fff" = None.
Proof. apply hex_to_rgb_short. simpl. lia. Defined.

(** ** The perceptual hash *)

Section HexLength.
Local Open Scope N_scope.

Lemma of_hex_uint_acc_lower (d : uint) (acc : positive) :
  Npos acc * 16 ^ N.of_nat (nb_digits d) <= Npos (Pos.of_hex_uint_acc d acc).
Proof.
  revert acc. induction d; intro acc; cbn [Pos.of_hex_uint_acc nb_digits];
    try (rewrite Nat2N.inj_succ, N.pow_succ_r';
         match goal with
         | |- _ <= N.pos (Pos.of_hex_uint_acc _ ?a) => specialize (IHd a)
         end;
         nia).
  simpl. lia.
Qed.

Lemma string_of_uint_length (d : uint) :
  String.length (NilEmpty.string_of_uint d) = nb_digits d.
Proof. induction d; simpl; congruence. Qed.

Lemma of_hex_uint_lower (d : uint) :
  d <> Nil -> nzhead d = d ->
  16 ^ N.of_nat (Nat.pred (nb_digits d)) <= Pos.of_hex_uint d.
Proof.
  intros Hn Hz. destruct d; try congruence;
    try (cbn [Pos.of_hex_uint nb_digits Nat.pred];
         match goal with
         | |- _ <= N.pos (Pos.of_hex_uint_acc ?l ?a) =>
             pose proof (of_hex_uint_acc_lower l a)
         end; nia).
  exfalso. exact (HexadecimalFacts.nzhead_nonzero _ _ Hz).
Qed.

(** A number below [16^k] prints with at most [k] hexadecimal digits. *)
Lemma hex_digits_length (n : N) (k : nat) :
  (1 <= k)%nat -> n < 16 ^ N.of_nat k ->
  (String.length (hex_digits n) <= k)%nat.
Proof.
  intros Hk Hn. unfold hex_digits. destruct n as [|p]; [simpl; lia|].
  cbn [N.to_hex_uint]. set (u := Pos.to_hex_uint p).
  assert (Hnil : u <> Nil) by apply HexadecimalPos.Unsigned.to_uint_nonnil.
  assert (Hval : Pos.of_hex_uint u = Npos p)
    by apply HexadecimalPos.Unsigned.of_to.
  assert (Hnorm : unorm u = u).
  { pose proof (HexadecimalPos.Unsigned.to_of u) as H.
    rewrite Hval in H. symmetry. exact H. }
  assert (Hhead : nzhead u = u).
  { destruct (uint_eq_dec (nzhead u) Nil) as [E|E].
    - apply HexadecimalFacts.unorm_0 in E. rewrite Hnorm in E.
      now apply HexadecimalPos.Unsigned.to_uint_nonzero in E.
    - rewrite <- (HexadecimalFacts.unorm_nzhead u E). exact Hnorm. }
  pose proof (of_hex_uint_lower u Hnil Hhead) as Hlow.
  rewrite Hval in Hlow.
  assert (Hlt : N.of_nat (Nat.pred (nb_digits u)) < N.of_nat k).
  { apply (N.pow_lt_mono_r_iff 16); [lia|].
    eapply N.le_lt_trans; [exact Hlow | exact Hn]. }
  assert (E : forall d, d <> Nil ->
            NilZero.string_of_uint d = NilEmpty.string_of_uint d).
  { intros d Hd. destruct d; [congruence | reflexivity ..]. }
  rewrite (E u Hnil), string_of_uint_length. lia.
Qed.

Lemma hex_digits_inj (n m : N) : hex_digits n = hex_digits m -> n = m.
Proof.
  unfold hex_digits. intro H.
  assert (Hnn : forall a, N.to_hex_uint a <> Nil).
  { intros [|p]; [discriminate|].
    apply HexadecimalPos.Unsigned.to_uint_nonnil. }
  apply (f_equal NilZero.uint_of_string) in H.
  rewrite !NilZero.usu in H by apply Hnn.
  injection H as H. now apply HexadecimalN.Unsigned.to_uint_inj.
Qed.
End HexLength.

Section HashFacts.
Import Preprocess.
Local Open Scope N_scope.

Lemma fold_bits_acc (bits : list bool) (acc : N) :
  fold_left (fun a (b : bool) => 2 * a + (if b then 1 else 0)) bits acc
  = acc * 2 ^ N.of_nat (List.length bits)
    + fold_left (fun a (b : bool) => 2 * a + (if b then 1 else 0)) bits 0.
Proof.
  revert acc. induction bits as [|b bits IH]; intro acc.
  - simpl. lia.
  - cbn [fold_left List.length].
    rewrite (IH (2 * acc + _)), (IH (2 * 0 + _)).
    rewrite Nat2N.inj_succ, N.pow_succ_r'. destruct b; lia.
Qed.

Lemma int_of_bits_cons (b : bool) (bits : list bool) :
  int_of_bits (b :: bits)
  = (if b then 2 ^ N.of_nat (List.length bits) else 0) + int_of_bits bits.
Proof.
  unfold int_of_bits. cbn [fold_left]. rewrite fold_bits_acc.
  destruct b; lia.
Qed.

Lemma int_of_bits_lt (bits : list bool) :
  int_of_bits bits < 2 ^ N.of_nat (List.length bits).
Proof.
  induction bits as [|b bits IH].
  - reflexivity.
  - rewrite int_of_bits_cons. cbn [List.length].
    rewrite Nat2N.inj_succ, N.pow_succ_r'. destruct b; lia.
Qed.

Lemma int_of_bits_with_zero (bits : list bool) :
  In false bits -> int_of_bits bits + 1 < 2 ^ N.of_nat (List.length bits).
Proof.
  induction bits as [|b bits IH]; [intros []|].
  intro Hin. rewrite int_of_bits_cons. cbn [List.length].
  rewrite Nat2N.inj_succ, N.pow_succ_r'.
  pose proof (int_of_bits_lt bits) as Hlt.
  destruct b.
  - destruct Hin as [H|H]; [discriminate|]. specialize (IH H). lia.
  - lia.
Qed.

Lemma int_of_bits_zeros (n : nat) : int_of_bits (repeat false n) = 0.
Proof.
  induction n as [|n IH]; [reflexivity|].
  cbn [repeat]. rewrite int_of_bits_cons. exact IH.
Qed.

Lemma sum_above (a : Q) (l : list Z) :
  Forall (fun p => (a < inject_Z p)%Q) l ->
  (inject_Z (Z.of_nat (List.length l)) * a
   <= inject_Z (fold_right Z.add 0%Z l))%Q.
Proof.
  induction 1 as [|p l Hp _ IH].
  - cbn [List.length fold_right]. change (inject_Z (Z.of_nat 0)) with 0%Q.
    rewrite Qmult_0_l. apply Qle_refl.
  - cbn [List.length fold_right].
    rewrite Nat2Z.inj_succ, inject_Z_plus. unfold Z.succ.
    rewrite inject_Z_plus. change (inject_Z 1) with 1%Q. lra.
Qed.

(** Not every pixel is above the mean. *)
Lemma hash_bits_has_zero (pixels : list Z) :
  pixels <> [] -> In false (hash_bits pixels).
Proof.
  intro Hne.
  destruct (in_dec bool_dec false (hash_bits pixels)) as [H|H]; [exact H|].
  exfalso. unfold hash_bits in H.
  set (total := fold_right Z.add 0%Z pixels) in *.
  set (n := inject_Z (Z.of_nat (List.length pixels))) in *.
  set (avg := (inject_Z total / n)%Q) in *.
  assert (Hn : (0 < n)%Q).
  { unfold n. change 0%Q with (inject_Z 0). rewrite <- Zlt_Qlt.
    destruct pixels; [congruence | simpl; lia]. }
  assert (Hall : Forall (fun p => (avg < inject_Z p)%Q) pixels).
  { apply Forall_forall. intros p Hp. apply Qlt_bool_iff.
    destruct (Qlt_bool avg (inject_Z p)) eqn:E; [reflexivity|].
    exfalso. apply H. apply in_map_iff. exists p. split; assumption. }
  destruct pixels as [|p l]; [congruence|].
  inversion Hall as [|? ? Hp Hl]; subst.
  pose proof (sum_above avg l Hl) as Hs.
  assert (Ht : (n * avg == inject_Z total)%Q).
  { unfold avg. field. intro E. rewrite E in Hn. now apply Qlt_irrefl in Hn. }
  unfold total, n in Ht. cbn [List.length fold_right] in Ht.
  rewrite Nat2Z.inj_succ, inject_Z_plus in Ht. unfold Z.succ in Ht.
  rewrite inject_Z_plus in Ht. change (inject_Z 1) with 1%Q in Ht. lra.
Qed.

Lemma hash_bits_uniform (v : Z) (n : nat) :
  hash_bits (repeat v n) = repeat false n.
Proof.
  unfold hash_bits.
  set (avg := (inject_Z (fold_right Z.add 0%Z (repeat v n))
               / inject_Z (Z.of_nat (List.length (repeat v n))))%Q).
  assert (Hbit : n <> O -> Qlt_bool avg (inject_Z v) = false).
  { intro Hn. apply Qlt_bool_false_iff. unfold avg.
    rewrite repeat_length.
    assert (Hs : fold_right Z.add 0%Z (repeat v n) = (Z.of_nat n * v)%Z).
    { clear. induction n as [|n IH]; [reflexivity|].
      cbn [repeat fold_right]. rewrite IH. lia. }
    rewrite Hs, inject_Z_mult.
    assert (Hz : ~ (inject_Z (Z.of_nat n) == 0)%Q).
    { change 0%Q with (inject_Z 0). rewrite inject_Z_injective. lia. }
    assert (E : (inject_Z (Z.of_nat n) * inject_Z v / inject_Z (Z.of_nat n)
                 == inject_Z v)%Q) by (field; exact Hz).
    rewrite E. apply Qle_refl. }
  destruct n as [|n]; [reflexivity|].
  specialize (Hbit ltac:(discriminate)).
  generalize dependent avg. intros avg Hbit.
  induction (S n) as [|m IH]; [reflexivity|].
  cbn [repeat map]. now rewrite Hbit, IH.
Qed.

Lemma length_append (s1 s2 : string) :
  String.length (s1 ++ s2) = (String.length s1 + String.length s2)%nat.
Proof. induction s1; simpl; congruence. Qed.

Lemma zfill_length (width : nat) (s : string) :
  String.length (zfill width s) = Nat.max width (String.length s).
Proof.
  unfold zfill. rewrite length_append.
  assert (H : forall k, String.length
                          (string_of_list_ascii (repeat "0"%char k)) = k).
  { induction k; simpl; congruence. }
  rewrite H. lia.
Qed.

(** X18: An image of one grey level hashes to sixteen zeros: no pixel is above
    the mean. *)
Theorem compute_image_hash_uniform (v : Z) (n : nat) :
  n <> O ->
  compute_image_hash (repeat v n) = Some "0000000000000000"%string.
Proof.
  intro Hn. unfold compute_image_hash.
  rewrite hash_bits_uniform, int_of_bits_zeros.
  destruct n; [congruence | reflexivity].
Qed.

(** X19: On the 64 pixels of the thumbnail the hash is exactly 16 characters
    long, and it is never all ["f"]: some pixel is not above the mean. *)
Theorem compute_image_hash_width (pixels : list Z) :
  List.length pixels = 64%nat ->
  exists h,
    compute_image_hash pixels = Some h /\
    String.length h = 16%nat /\
    h <> "ffffffffffffffff"%string.
Proof.
  intro Hlen.
  assert (Hne : pixels <> []) by (intro E; rewrite E in Hlen; discriminate).
  set (v := int_of_bits (hash_bits pixels)).
  assert (Hbits : List.length (hash_bits pixels) = 64%nat).
  { unfold hash_bits. now rewrite length_map. }
  assert (Hv : v + 1 < 2 ^ 64).
  { pose proof (int_of_bits_with_zero _ (hash_bits_has_zero pixels Hne)) as H.
    rewrite Hbits in H. exact H. }
  exists (zfill 16 (hex_digits v)).
  assert (Hd : (String.length (hex_digits v) <= 16)%nat).
  { apply hex_digits_length; [lia|].
    change (16 ^ N.of_nat 16) with (2 ^ 64). lia. }
  split; [|split].
  - unfold compute_image_hash. fold v. destruct pixels; [congruence|reflexivity].
  - rewrite zfill_length. lia.
  - intro E.
    assert (Hz : zfill 16 (hex_digits v) = hex_digits v
                 \/ exists s, zfill 16 (hex_digits v) = String "0" s).
    { unfold zfill.
      destruct (16 - String.length (hex_digits v))%nat; [now left|].
      right. simpl. eauto. }
    destruct Hz as [Hz|[s Hz]].
    + rewrite Hz in E.
      change "ffffffffffffffff"%string with (hex_digits (2 ^ 64 - 1)) in E.
      apply hex_digits_inj in E. lia.
    + rewrite Hz in E. discriminate.
Qed.
End HashFacts.

Lemma compute_image_hash_uniform_witness :
  Preprocess.compute_image_hash (repeat 200%Z 64)
  = Some "0000000000000000"%string.
Proof. apply compute_image_hash_uniform. discriminate. Defined.

(** A thumbnail whose last pixel alone is bright: only the lowest bit is
    set. *)
Lemma compute_image_hash_width_witness :
  Preprocess.compute_image_hash (repeat 10%Z 63 ++ [250%Z])
  = Some "0000000000000001"%string /\
  exists h,
    Preprocess.compute_image_hash (repeat 10%Z 63 ++ [250%Z]) = Some h /\
    String.length h = 16%nat /\ h <> "ffffffffffffffff"%string.
Proof.
  split; [vm_compute; reflexivity|].
  apply compute_image_hash_width. reflexivity.
Defined.

(** ** Colour space: the round trip *)

Section RoundTrip.
Import ColorTransfer.
Variable cv_BGR2LAB : triple Z -> triple Z.
Variable cv_LAB2BGR : triple Z -> triple Z.

(** X20: Converting to LAB and back sends each pixel through OpenCV's two
    conversions and changes nothing else: the alpha channel is dropped,
    and the float copy, the clip and the cast cancel on OpenCV's 8-bit
    LAB values. *)
Theorem lab_round_trip (px : list (triple Z * Z)) :
  (forall p, In p px -> valid_rgb (cv_BGR2LAB (swap_rb (fst p)))) ->
  rgb_to_lab cv_BGR2LAB (Img4 px) = rgb_to_lab cv_BGR2LAB (Img3 (map fst px))
  /\
  lab_to_rgb cv_LAB2BGR (rgb_to_lab cv_BGR2LAB (Img4 px))
  = map (fun p => swap_rb (cv_LAB2BGR (cv_BGR2LAB (swap_rb (fst p))))) px.
Proof.
  intro Hrange. split; [reflexivity|].
  unfold lab_to_rgb, rgb_to_lab. rewrite !map_map.
  apply map_ext_in. intros p Hp. do 2 f_equal.
  specialize (Hrange p Hp).
  destruct (cv_BGR2LAB (swap_rb (fst p))) as [[l a] b].
  destruct Hrange as (Hl & Ha & Hb). simpl.
  now rewrite !clip_uint8_inject_Z.
Qed.
End RoundTrip.

Lemma lab_round_trip_witness :
  ColorTransfer.lab_to_rgb Sample.lab2bgr
    (ColorTransfer.rgb_to_lab Sample.bgr2lab
       (ColorTransfer.Img4 [((30, 60, 90), 255); ((90, 120, 150), 0)]))
  = [(60, 60, 60); (120, 120, 120)].
Proof.
  destruct (lab_round_trip Sample.bgr2lab Sample.lab2bgr
              [((30, 60, 90), 255); ((90, 120, 150), 0)]) as [_ H].
  - intros p [<-|[<-|[]]]; vm_compute; repeat split; discriminate.
  - rewrite H. reflexivity.
Defined.

(** ** Image statistics *)

Section StatsFacts.
Import ColorTransfer.
Variable np_std : list Q -> Q.

(** The truncated [float64] mean of fewer than [2^45] 8-bit values is
    the integer quotient of their sum by their number. *)
Lemma mean_uint8_truncated (zs : list Z) :
  zs <> [] -> Forall (fun z => 0 <= z <= 255) zs ->
  Z.of_nat (List.length zs) < 2 ^ 45 ->
  py_int (Stats.np_mean_uint8 zs)
  = fold_right Z.add 0 zs / Z.of_nat (List.length zs).
Proof.
  intros Hne Hz Hlen. unfold Stats.np_mean_uint8, binary64.
  assert (Hl : 0 < Z.of_nat (List.length zs)).
  { destruct zs; [congruence | simpl; lia]. }
  apply (fp_quotient_truncated 53).
  - apply sum_of_bytes. exact Hz.
  - change (53 - 8) with 45. lia.
  - reflexivity.
Qed.

Lemma channel_mean_in_range (i : nat) (pixels : list (triple Z)) :
  pixels <> [] -> Forall valid_rgb pixels ->
  Z.of_nat (List.length pixels) < 2 ^ 45 ->
  let m := py_int (Stats.np_mean_uint8 (map (chan i) pixels)) in
  m = fold_right Z.add 0 (map (chan i) pixels)
      / Z.of_nat (List.length pixels) /\
  0 <= m <= 255.
Proof.
  intros Hne Hv Hlen m. unfold m.
  assert (Hc : Forall (fun z => 0 <= z <= 255) (map (chan i) pixels)).
  { apply Forall_map. eapply Forall_impl; [|exact Hv].
    intros [[r g] b] (Hr & Hg & Hb). destruct i as [|[|i]]; simpl; lia. }
  rewrite mean_uint8_truncated.
  - rewrite length_map. split; [reflexivity|].
    pose proof (sum_of_bytes _ Hc) as Hs.
    rewrite length_map in Hs.
    assert (Hn : 0 < Z.of_nat (List.length pixels))
      by (destruct pixels; [congruence | simpl; lia]).
    split.
    + apply Z.div_pos; lia.
    + apply Z.div_le_upper_bound; lia.
  - destruct pixels; [congruence | discriminate].
  - exact Hc.
  - now rewrite length_map.
Qed.

(** X21: For a non-empty 8-bit RGB image of fewer than [2^45] pixels the
    statistics are returned, the three entries of [mean_rgb] are the
    rounded-down means of the three channels (the sum of the channel
    divided by the number of pixels), each within 0..255, and
    [dominant_color] is the seven-character hex string of those same three
    values. *)
Theorem get_image_stats_dominant_color (w h : Z)
    (pixels : list (triple Z)) :
  let n := Z.of_nat (List.length pixels) in
  let total i := fold_right Z.add 0 (map (chan i) pixels) in
  h <> 0 -> pixels <> [] -> Forall valid_rgb pixels -> n < 2 ^ 45 ->
  exists stats,
    Stats.get_image_stats np_std w h pixels = Some stats /\
    Stats.mean_rgb stats
    = [total 0%nat / n; total 1%nat / n; total 2%nat / n] /\
    valid_rgb (total 0%nat / n, total 1%nat / n, total 2%nat / n) /\
    Stats.dominant_color stats
    = hex_color (total 0%nat / n, total 1%nat / n, total 2%nat / n) /\
    String.length (Stats.dominant_color stats) = 7%nat.
Proof.
  intros n total Hh Hne Hv Hlen. unfold Stats.get_image_stats.
  apply Z.eqb_neq in Hh. rewrite Hh.
  destruct (channel_mean_in_range 0 pixels Hne Hv Hlen) as [E0 R0].
  destruct (channel_mean_in_range 1 pixels Hne Hv Hlen) as [E1 R1].
  destruct (channel_mean_in_range 2 pixels Hne Hv Hlen) as [E2 R2].
  cbv zeta in E0, R0, E1, R1, E2, R2.
  fold n in E0, E1, E2. fold (total 0%nat) in E0.
  fold (total 1%nat) in E1. fold (total 2%nat) in E2.
  rewrite E0 in R0. rewrite E1 in R1. rewrite E2 in R2.
  destruct pixels as [|p0 rest] eqn:Ep; [congruence|]. rewrite <- Ep in *.
  eexists. split; [reflexivity|].
  cbn [Stats.mean_rgb Stats.dominant_color map].
  rewrite E0, E1, E2.
  split; [reflexivity|].
  split; [repeat split; lia|].
  split; [reflexivity|].
  destruct (reads_back_inv _ (reads_back_all _ R0)) as (a1 & a2 & Ea & _).
  destruct (reads_back_inv _ (reads_back_all _ R1)) as (b1 & b2 & Eb & _).
  destruct (reads_back_inv _ (reads_back_all _ R2)) as (c1 & c2 & Ec & _).
  unfold hex_color. now rewrite Ea, Eb, Ec.
Qed.
End StatsFacts.

Lemma get_image_stats_dominant_color_witness :
  exists stats,
    Stats.get_image_stats Sample.spread 2 1 [(100, 100, 100); (103, 100, 90)]
    = Some stats /\
    Stats.mean_rgb stats = [101; 100; 95] /\
    Stats.dominant_color stats = "#65645f"%string.
Proof.
  destruct (get_image_stats_dominant_color Sample.spread 2 1
              [(100, 100, 100); (103, 100, 90)])
    as (stats & Hs & Hm & _ & Hd & _).
  - discriminate.
  - discriminate.
  - repeat constructor; vm_compute; discriminate.
  - vm_compute. reflexivity.
  - exists stats. split; [exact Hs|].
    split; [rewrite Hm | rewrite Hd]; vm_compute; reflexivity.
Defined.

(** Five pixels, [k = 2]: the positional clustering returns and so does
    the extraction. *)
Lemma extract_palette_returns_witness :
  exists p,
    ColorTransfer.extract_palette Sample.kmeans 0
      [(200, 30, 30); (30, 30, 200); (200, 30, 30); (30, 30, 200);
       (200, 30, 30)] 2 true false = Some p.
Proof.
  apply extract_palette_returns.
  - exact Sample_kmeans_contract.
  - lia.
  - intros pixels Hk. unfold Sample.kmeans.
    apply Z.ltb_ge in Hk. rewrite Hk. discriminate.
Defined.
